(* ===== verification/_CoqProject ===== *)
-Q . S2P
Prelude.v
Grid.v
Mapper.v
Fftw.v
Transform.v
Diff.v
Display.v
Gpo3Main.v
