(* ===== verification/Prelude.v ===== *)
(** * ATUS2 spectral differentiation: a verification development

    ** The program

    ATUS2 computes spatial derivatives of a real scalar field sampled on a
    uniform 3-D grid by the spectral method: a forward real-to-complex
    FFT, a per-frequency multiplication, a backward complex-to-real FFT.
    The repository part under src/ has two files:

    - src/source/libs/lib_myutils/rft_3d.cpp, class [Fourier::rft_3d]:
      the constructor (FFTW plan creation), [ft] (transform with
      normalisation), [scale], the index mappers [Get_k] and [Get_x], the
      six partial derivatives [Diff_x] ... [Diff_zz] and [Laplace].
    - src/source/vis/src/gpo3.cpp: the [gpo3] command-line viewer that
      prints 1-D, 2-D and 3-D slices of a stored field, with the
      projections [mode1] ... [mode4] and the [main] dispatcher.

    The base class [cft_base] (grid sizes, spacings, buffers, shifts,
    [m_red_dim]) is not under src/: its fields are modelled from the spec
    (§3) as the record [Grid.grid] and are marked spec-modelled.

    ** How the development is organised (files in dependency order)

    - [Prelude] (this file): the scalars (doubles as exact rationals
      [Qc]), the complex record [cplx] standing for [fftw_complex], the
      pointwise vector operations, C++ [int64_t] arithmetic with overflow
      and division by zero as errors ([add64], [mul64], [quot64],
      [rem64]), C++ [int] arithmetic the same way ([add32], [mul32]) with
      the conversion of a [long long] to [int] ([to_int32]), the model of an OpenMP [parallel for] loop as updates in an
      arbitrary index order ([par_for]) with the theorem that every order
      computes the pointwise reference ([par_for_perm]), and the hint
      database [atus].
    - [Grid]: the [cft_base] context ([grid]): sizes, spacings, shifts,
      [m_red_dim], [m_dim], [m_dim_fs], and its well-formedness [grid_wf]
      (decidable, so concrete grids are checked by [decide]).
    - [Mapper]: [Get_k] and [Get_x] of rft_3d.cpp with every [int64_t]
      operation checked; the abstract index decomposition [decomp] and the
      centred fold [fold_idx]; refinement theorems (the code computes the
      abstract decomposition and never overflows on a well-formed grid),
      range and injectivity theorems, and the collapse of the top packed
      z-bin onto frequency 0.
    - [Fftw]: the interface to the two FFTW plans the constructor creates
      ([FFTW_plans], a type class of the grid) and their laws
      ([FFTW_laws]: lengths, linearity, unnormalised round trip), with a
      concrete instance, the exact 4-point real DFT on the 1x1x4 grid
      [g114] (twiddle factors [1, -i, -1, i]), that discharges the laws
      and serves the witnesses.  The clients' theorems are proved against
      the class, for every instance.
    - [Transform]: the object state [rft_state] (the buffers [m_in_real],
      [m_out] and the direction [m_isign]), [scale] and [ft]; the guard
      on the direction, the normalised round trip (for factors that are
      reciprocal, and for the factors of lines 63 and 68 on every grid
      whose spacings satisfy the spec's [dk N d = 2 pi], stated by
      [Grid.reciprocal_spacings]), and what [scale] does under a
      direction other than +1.
    - [Diff]: the six derivatives and [Laplace] as [ft(-1)], a parallel
      per-bin loop with [Get_k], [ft(1)] ([spectral_op]); the per-bin
      updates are the multiplications by [i k] and [-k^2]; the spec's
      description of the operators ([spec_multipliers],
      [spec_derivative]) and the refinement theorem; the Laplacian
      decomposition, when the operators succeed or fail, that their
      result depends on the input field only, and the zeroed top z-bin
      of [Diff_z].
    - [Display]: the gpo3 slice printers: option bits, the projections,
      every overload of [display_1D], [display_2D] and [display_3D] as
      the list of rows it prints, with the [int] copies [dimX], [dimY],
      [dimZ] of the header's [long long] dimensions and the offsets
      [ijk] and [ij] computed in [int] ([idx3_32], [idx2_32]).  The
      theorems show when a printer stays inside the field, which fixed
      indices make [display_3D] and [display_2D] read past its end (the
      guards [i0 > dimX], [j0 > dimY] and [k0 > dimY] of gpo3.cpp lines
      89-91, 203-205, 315-316 and 378-379), that on a grid of more than
      [2^31] points the [int] offsets overflow, the rows each branch
      prints in closed form (coordinates [xMin + i dx] and the value at
      the row-major offset), and the number of rows each loop prints.
    - [Gpo3Main]: gpo3's [main]: the command line ([cmdline]), the usage
      text and when it is printed, the option word, the [EXIT_FAILURE]
      path, the header dump and the dispatch on [nDims] and [bComplex]
      ([gpo3_slice]); the safety of every branch on a grid of at most
      [INT_MAX] points, the whole output on a 1-D real file, and the
      output on a header none of the branches matches.

    ** What the theorems show

    - Refinement: [Get_k] and [Get_x] compute the spec's decomposition of
      an offset, with every [int64_t] step in range on a well-formed grid;
      [Get_x] and the row-major offset are inverse to each other.
    - Functional behaviour of every operation, on its error branches too:
      the direction guard of [ft], [scale] under an invalid direction,
      [Get_k]'s division by zero on one z-plane, gpo3's exit code and its
      output on a header with an unknown layout.
    - Algebra of the operators: the loop bodies are multiplications by
      [i k] and [-k^2], and [Laplace] is [Diff_xx + Diff_yy + Diff_zz].
    - A round trip: [ft(-1)] then [ft(1)] restores the real buffer when
      the factors satisfy the discrete reciprocity, which the factors
      [ft] computes do on a grid with the spec's spacings.
    - Refinement: the seven operators implement the spec's "transform,
      multiply by a polynomial in k, transform back".
    - Safety and its failures in gpo3: reads inside the field under the
      guards' conditions, and the exact inputs that read past it or
      overflow the [int] offsets; what each printer branch prints, and
      the count of loop iterations.
    Each theorem with hypotheses has a witness ([..._witness], ending in
    [Defined]) applying it on a concrete grid: [Mapper.g444] (4x4x4),
    [Mapper.g441] (one z-plane), [Fftw.g114] with [Transform.s114] (one
    period of a sine), and
    [Display.hdr] with [Display.ramp] and [Gpo3Main.cmd_ij]
    ([hdr 2048 2048 2048], with [2^33] points and an empty field, for the
    [int] overflow; [Gpo3Main.hdr4] with [nDims = 4], [Gpo3Main.hdr1]
    a 1-D real header).  The
    examples [Diff_z_sine], [Diff_zz_sine] and [Laplace_sine] evaluate
    the operators on that sine.

    ** Modelling choices

    - Doubles are rationals ([Qc], canonical rationals with Leibniz
      equality): every finite double is a rational, and the arithmetic is
      idealised as exact.  The code's constant [pow(2*M_PI,1.5)] is a
      parameter ([c2pi15]); the theorems hold for every value of it.
      [atan2] and the external [sign] of gpo3 are parameters too.
    - [int64_t] values are [Z] with every operation checked against the
      signed 64-bit range; overflow and division by zero (undefined
      behaviour, a trap on the target) are [None].  [grid_wf] bounds the
      buffer by [2^62] elements, which keeps every offset and every offset
      plus a shift inside [int64_t].
    - gpo3's [int] values are [Z] checked against the signed 32-bit
      range the same way, signed overflow being undefined behaviour; the
      conversion [const int dimX = header->nDimX] is implementation-
      defined in C++17 and modular since C++20, and [to_int32] models it
      as the modular reduction every target compiler performs.  Dimensions
      that fit [int] convert to themselves ([to_int32_small]), which is
      what the safety theorems assume.
    - FFTW is not modelled as code: the plans are an interface with laws.
    - Loops over buffers with [#pragma omp parallel for] are [par_for]
      over an index order; the definitions use the sequential order
      [seqZ 0 n], and [par_for_perm] shows any permutation agrees.  The
      iterations touch disjoint elements, so there is no interleaving
      within an element to model; by the same token a race between
      iterations (a shared loop temporary, say) cannot be expressed, and
      no theorem claims its absence.
    - No fuel: every loop is a fold over a list or a [Fixpoint] on the
      loop count ([Display.acc_loop]), so every definition is total and
      evaluates by [vm_compute].
    - A gpo3 printer's output is the list of rows it prints; a read
      outside the field buffer is [None].  A file shorter than the grid
      gives a shorter field here; in the program the tail of the buffer is
      uninitialised.

    ** Not modelled
    - FFTW's algorithms (only their contract), the [cft_base] constructor
      and the binary header reader, AnyOption's argument parsing (its
      result is the [cmdline] record), the [MY_NO_OF_THREADS] variable
      (it sets the OpenMP thread count, and gpo3 has no parallel region),
      printf number formatting (a printed line is the list of its values),
      floating-point rounding.
    - Sequences of calls on one [rft_3d] object: each call is modelled
      ([ft], the seven operators), and an operator's result depends on
      the input field only ([Diff.diff_ops_input_only]), so a sequence is
      the composition of its calls; no separate theorem about longer
      sequences is stated. *)

From Stdlib Require Export ZArith Lia QArith Qcanon.
From stdpp Require Export base list numbers.

Declare Scope atus_scope.
Delimit Scope atus_scope with atus.

Create HintDb atus.
Create Rewrite HintDb atus_rw.

(** ** Scalars and complex values *)

(** [fftw_complex] is [double[2]]: index 0 is the real part, 1 the
    imaginary part. *)
Record cplx := mkC { re : Qc; im : Qc }.

#[export] Instance Qc_eq_decision : EqDecision Qc := Qc_eq_dec.
#[export] Instance Qc_inhabited : Inhabited Qc := populate 0%Qc.

#[export] Instance cplx_eq_dec : EqDecision cplx.
Proof. intros [a b] [c d]. unfold Decision. decide equality; apply Qc_eq_dec. Defined.

Definition czero : cplx := mkC 0%Qc 0%Qc.
#[export] Instance cplx_inhabited : Inhabited cplx := populate czero.
Definition cadd (a b : cplx) : cplx := mkC (re a + re b)%Qc (im a + im b)%Qc.
Definition cmul (a b : cplx) : cplx :=
  mkC (re a * re b - im a * im b)%Qc (re a * im b + im a * re b)%Qc.
Definition cscale (s : Qc) (a : cplx) : cplx := mkC (re a * s)%Qc (im a * s)%Qc.
(** The imaginary unit times a real [k]. *)
Definition cIk (k : Qc) : cplx := mkC 0%Qc k.
Definition creal (k : Qc) : cplx := mkC k 0%Qc.

(** [double(z)] of an integer. *)
Definition Z2R (z : Z) : Qc := Qc_of_Z z.

Notation "a +c b" := (cadd a b) (at level 50, left associativity) : atus_scope.
Notation "a *c b" := (cmul a b) (at level 40, left associativity) : atus_scope.
Open Scope atus_scope.

Lemma cplx_ext (a b : cplx) : re a = re b -> im a = im b -> a = b.
Proof. destruct a, b; simpl; intros -> ->; reflexivity. Qed.

(** Closing tactic for the field equalities of the per-element updates. *)
Ltac cplx_ring := apply cplx_ext; simpl; ring.

(** Pointwise operations on buffers of reals and of complex values. *)
Definition vadd (u v : list Qc) : list Qc := zip_with Qcplus u v.
Definition vscale (s : Qc) (u : list Qc) : list Qc := map (fun x => x * s)%Qc u.
Definition cvadd (u v : list cplx) : list cplx := zip_with cadd u v.
Definition cvscale (s : Qc) (u : list cplx) : list cplx := map (cscale s) u.

Lemma length_vadd u v : length u = length v -> length (vadd u v) = length u.
Proof. intros H. unfold vadd. rewrite length_zip_with. lia. Qed.

Lemma length_vscale s u : length (vscale s u) = length u.
Proof. apply length_map. Qed.

Lemma length_cvadd u v : length u = length v -> length (cvadd u v) = length u.
Proof. intros H. unfold cvadd. rewrite length_zip_with. lia. Qed.

Lemma length_cvscale s u : length (cvscale s u) = length u.
Proof. apply length_map. Qed.

Lemma vscale_vscale a b u : vscale a (vscale b u) = vscale (b * a)%Qc u.
Proof. unfold vscale. rewrite map_map. apply map_ext. intros x. ring. Qed.

Lemma vscale_1 u : vscale 1%Qc u = u.
Proof. unfold vscale. rewrite <- (map_id u) at 2. apply map_ext. intros x. ring. Qed.

Lemma vscale_vadd a u v : vscale a (vadd u v) = vadd (vscale a u) (vscale a v).
Proof.
  unfold vscale, vadd. revert v. induction u as [|x u IH]; intros [|y v]; simpl; [done..|].
  f_equal; [ring | apply IH].
Qed.

Lemma cvscale_cvscale a b u : cvscale a (cvscale b u) = cvscale (b * a)%Qc u.
Proof. unfold cvscale. rewrite map_map. apply map_ext. intros x. cplx_ring. Qed.

Lemma cvscale_cvadd a u v : cvscale a (cvadd u v) = cvadd (cvscale a u) (cvscale a v).
Proof.
  unfold cvscale, cvadd. revert v. induction u as [|x u IH]; intros [|y v]; simpl; [done..|].
  f_equal; [cplx_ring | apply IH].
Qed.

Lemma vscale_comm a b u : vscale a (vscale b u) = vscale b (vscale a u).
Proof. rewrite !vscale_vscale. f_equal. ring. Qed.

Lemma cvscale_comm a b u : cvscale a (cvscale b u) = cvscale b (cvscale a u).
Proof. rewrite !cvscale_cvscale. f_equal. ring. Qed.

#[export] Hint Rewrite length_vscale length_cvscale : atus_rw.


(** A property of every element of an explicit list, one [tac] per element. *)
Ltac forall_list tac :=
  repeat (apply ListDef.Forall_cons; [cbv beta; tac|]); apply ListDef.Forall_nil.

(** ** C++ [int64_t] arithmetic *)

Definition int64_min : Z := (- 2 ^ 63)%Z.
Definition int64_max : Z := (2 ^ 63 - 1)%Z.

Definition in_int64 (z : Z) : bool := (int64_min <=? z)%Z && (z <=? int64_max)%Z.

(** A result outside the range is signed overflow: undefined behaviour. *)
Definition ret64 (z : Z) : option Z := if in_int64 z then Some z else None.

Definition add64 (a b : Z) : option Z := ret64 (a + b).
Definition sub64 (a b : Z) : option Z := ret64 (a - b).
Definition mul64 (a b : Z) : option Z := ret64 (a * b).
(** C++ [/] and [%] truncate towards zero ([Z.quot], [Z.rem]); a zero
    divisor is undefined behaviour (SIGFPE on x86). *)
Definition quot64 (a b : Z) : option Z := if (b =? 0)%Z then None else ret64 (Z.quot a b).
Definition rem64 (a b : Z) : option Z := if (b =? 0)%Z then None else ret64 (Z.rem a b).

Lemma in_int64_spec z : in_int64 z = true <-> (int64_min <= z <= int64_max)%Z.
Proof. unfold in_int64. rewrite andb_true_iff, !Z.leb_le. tauto. Qed.

Lemma ret64_ok z : (int64_min <= z <= int64_max)%Z -> ret64 z = Some z.
Proof. intros H. unfold ret64. apply in_int64_spec in H. by rewrite H. Qed.

Lemma add64_ok a b : (int64_min <= a + b <= int64_max)%Z -> add64 a b = Some (a + b)%Z.
Proof. apply ret64_ok. Qed.
Lemma sub64_ok a b : (int64_min <= a - b <= int64_max)%Z -> sub64 a b = Some (a - b)%Z.
Proof. apply ret64_ok. Qed.
Lemma mul64_ok a b : (int64_min <= a * b <= int64_max)%Z -> mul64 a b = Some (a * b)%Z.
Proof. apply ret64_ok. Qed.
Lemma quot64_ok a b :
  b <> 0%Z -> (int64_min <= Z.quot a b <= int64_max)%Z -> quot64 a b = Some (Z.quot a b).
Proof. intros Hb H. unfold quot64. rewrite (proj2 (Z.eqb_neq b 0) Hb). by apply ret64_ok. Qed.
Lemma rem64_ok a b :
  b <> 0%Z -> (int64_min <= Z.rem a b <= int64_max)%Z -> rem64 a b = Some (Z.rem a b).
Proof. intros Hb H. unfold rem64. rewrite (proj2 (Z.eqb_neq b 0) Hb). by apply ret64_ok. Qed.
Lemma quot64_zero a : quot64 a 0 = None.
Proof. reflexivity. Qed.
Lemma rem64_zero a : rem64 a 0 = None.
Proof. reflexivity. Qed.

#[export] Hint Rewrite quot64_zero rem64_zero : atus_rw.

(** On non-negative operands C++ division is floor division. *)
Lemma quot64_nonneg_ok a b :
  (0 <= a <= int64_max -> 0 < b -> quot64 a b = Some (a / b))%Z.
Proof.
  intros Ha Hb. rewrite <- Z.quot_div_nonneg by lia. apply quot64_ok; [lia|].
  rewrite Z.quot_div_nonneg by lia. pose proof (Z.div_pos a b). pose proof (Z.div_le_upper_bound a b a).
  unfold int64_min in *. nia.
Qed.

Lemma rem64_nonneg_ok a b :
  (0 <= a <= int64_max -> 0 < b -> rem64 a b = Some (a mod b))%Z.
Proof.
  intros Ha Hb. rewrite <- Z.rem_mod_nonneg by lia. apply rem64_ok; [lia|].
  rewrite Z.rem_mod_nonneg by lia. pose proof (Z.mod_pos_bound a b Hb). pose proof (Z.mod_le a b).
  unfold int64_min in *. lia.
Qed.

Lemma div_range a b : (0 <= a -> 0 < b -> 0 <= a / b <= a)%Z.
Proof. intros. split; [apply Z.div_pos; lia | apply Z.div_le_upper_bound; nia]. Qed.

(** One step of a checked [int64_t] computation whose operands are known
    to be in range: the side conditions are linear in the atoms of the
    context and closed by [lia]. *)
Ltac side64 := unfold int64_min, int64_max in *; lia.
Ltac step64 :=
  first [ rewrite quot64_nonneg_ok by side64 | rewrite rem64_nonneg_ok by side64
        | rewrite mul64_ok by side64 | rewrite add64_ok by side64
        | rewrite sub64_ok by side64 ];
  cbn [mbind option_bind].

(** A decidable proposition about concrete data (a grid, a header, a
    buffer) is closed by evaluating its decision procedure. *)
Ltac by_eval := apply (bool_decide_unpack _); vm_compute; reflexivity.

(** ** C++ [int] arithmetic (32 bits)

    gpo3 keeps its dimensions, indices and buffer offsets in [int]. *)

Definition int32_min : Z := (- 2 ^ 31)%Z.
Definition int32_max : Z := (2 ^ 31 - 1)%Z.

Definition in_int32 (z : Z) : bool := (int32_min <=? z)%Z && (z <=? int32_max)%Z.

(** A result outside the range is signed overflow: undefined behaviour. *)
Definition ret32 (z : Z) : option Z := if in_int32 z then Some z else None.
Definition add32 (a b : Z) : option Z := ret32 (a + b).
Definition mul32 (a b : Z) : option Z := ret32 (a * b).

(** [int d = v] for a [long long] [v]: the low 32 bits, read as a signed
    number (two's complement, what C++20 specifies). *)
Definition to_int32 (z : Z) : Z := ((z + 2 ^ 31) mod 2 ^ 32 - 2 ^ 31)%Z.

Lemma in_int32_spec z : in_int32 z = true <-> (int32_min <= z <= int32_max)%Z.
Proof. unfold in_int32. rewrite andb_true_iff, !Z.leb_le. tauto. Qed.

Lemma ret32_ok z : (int32_min <= z <= int32_max)%Z -> ret32 z = Some z.
Proof. intros H. unfold ret32. apply in_int32_spec in H. by rewrite H. Qed.

Lemma ret32_Some z v : ret32 z = Some v -> v = z /\ (int32_min <= z <= int32_max)%Z.
Proof.
  unfold ret32. destruct (in_int32 z) eqn:E; [|done]. intros [= <-].
  by apply in_int32_spec in E.
Qed.

Lemma to_int32_small z : (int32_min <= z <= int32_max)%Z -> to_int32 z = z.
Proof.
  unfold to_int32, int32_min, int32_max. intros Hz.
  rewrite Z.mod_small by lia. lia.
Qed.

(** Bounds that make every step of a computation representable. *)
Lemma int64_range_small z : (0 <= z < 2 ^ 63)%Z -> (int64_min <= z <= int64_max)%Z.
Proof. unfold int64_min, int64_max. lia. Qed.

(** A row of length [nr] inside a block of [ny] rows. *)
Lemma row_bound ny nr j k : (0 <= j < ny -> 0 <= k < nr -> 0 <= j * nr + k < ny * nr)%Z.
Proof. intros. assert (j * nr <= (ny - 1) * nr)%Z by (apply Z.mul_le_mono_nonneg_r; lia). nia. Qed.

(** Row-major offset of [(i, j, k)] when the last two axes have lengths
    [ny] and [nr]. *)
Definition compose (ny nr i j k : Z) : Z := ((i * ny + j) * nr + k)%Z.

Lemma compose_range nx ny nr i j k :
  (0 <= i < nx -> 0 <= j < ny -> 0 <= k < nr -> 0 <= compose ny nr i j k < nx * ny * nr)%Z.
Proof.
  intros Hi Hj Hk. unfold compose.
  pose proof (row_bound ny nr j k Hj Hk). pose proof (row_bound nx (ny * nr) i (j * nr + k) Hi ltac:(lia)).
  nia.
Qed.

#[export] Hint Resolve int64_range_small row_bound : atus.

(** ** OpenMP [parallel for] loops over a buffer

    A loop [for (i = 0; i < n; i++) buf[i] = body_i(buf[i])] whose
    iterations touch only their own element.  [f i] is what iteration
    [i] does to its element, or [None] when computing it traps.  The
    iterations run in [order]: the sequential program uses [seqZ 0 n];
    an OpenMP schedule uses some permutation of it. *)

Section ParFor.
Context {A : Type}.
Implicit Types (f : Z -> option (A -> A)) (buf : list A) (order : list Z).

Definition par_step f (acc : option (list A)) (i : Z) : option (list A) :=
  b ← acc; u ← f i; Some (alter u (Z.to_nat i) b).

Definition par_for f order buf : option (list A) := foldl (par_step f) (Some buf) order.

(** The loop body that cannot fail ([scale]'s loops). *)
Definition par_for_total (h : Z -> A -> A) order buf : list A :=
  foldl (fun b i => alter (h i) (Z.to_nat i) b) buf order.

(** The reference semantics: every element is updated by its own
    iteration, and the loop fails when one iteration fails. *)
Definition body f (i : Z) : A -> A := default id (f i).
Definition loop_ok f (n : Z) : bool := forallb (fun i => bool_decide (is_Some (f i))) (seqZ 0 n).
Definition pointwise f buf : option (list A) :=
  if loop_ok f (Z.of_nat (length buf))
  then Some (imap (fun n x => body f (Z.of_nat n) x) buf) else None.

Lemma par_for_none f order : foldl (par_step f) None order = None.
Proof. induction order; simpl; auto. Qed.

Lemma par_for_fail f order buf i : i ∈ order -> f i = None -> par_for f order buf = None.
Proof.
  intros Hin Hf. apply list_elem_of_split in Hin as (l1 & l2 & ->).
  unfold par_for. rewrite foldl_app. simpl.
  destruct (foldl (par_step f) (Some buf) l1); simpl;
    [rewrite Hf|]; apply par_for_none.
Qed.

Lemma par_for_ok f order buf :
  (forall i, i ∈ order -> is_Some (f i)) ->
  par_for f order buf = Some (par_for_total (body f) order buf).
Proof.
  unfold par_for_total.
  revert buf. induction order as [|i order IH]; intros buf Hall; simpl; [done|].
  destruct (Hall i (list_elem_of_here _ _)) as [u Hu].
  unfold par_for in *. simpl. rewrite Hu. simpl.
  rewrite IH; [unfold body; by rewrite Hu | intros; apply Hall; by right].
Qed.

Lemma foldl_alter_lookup (h : Z -> A -> A) order buf (j : nat) :
  NoDup order -> Forall (fun i => 0 <= i)%Z order ->
  par_for_total h order buf !! j =
  if decide (Z.of_nat j ∈ order) then h (Z.of_nat j) <$> buf !! j else buf !! j.
Proof.
  unfold par_for_total.
  revert buf. induction order as [|i order IH]; intros buf Hnd Hpos; cbn [foldl].
  { case_decide as Hin; [by apply not_elem_of_nil in Hin | done]. }
  pose proof (NoDup_cons_1_1 _ _ Hnd) as Hni. apply NoDup_cons_1_2 in Hnd.
  inversion Hpos as [|? ? Hi Hpos0]; subst.
  rewrite IH by done.
  destruct (decide (Z.of_nat j = i)) as [<-|Hne].
  - rewrite decide_False by done. rewrite decide_True by (left; done).
    by rewrite Nat2Z.id, list_lookup_alter_eq.
  - assert (Z.to_nat i <> j) by lia.
    destruct (decide (Z.of_nat j ∈ order)) as [Hin|Hin];
      rewrite list_lookup_alter_ne by done;
      [rewrite decide_True by (right; done)
      | rewrite decide_False by (intros [?|?]%elem_of_cons; done)]; done.
Qed.

(** The index range of a loop over a buffer of [Z.to_nat n] elements. *)
Lemma seqZ_length (n : Z) buf : length buf = Z.to_nat n -> seqZ 0 (Z.of_nat (length buf)) = seqZ 0 n.
Proof. intros ->. unfold seqZ. by rewrite Nat2Z.id. Qed.

(** Any permutation of the indices gives the element-wise map. *)
Theorem par_for_total_perm (h : Z -> A -> A) order buf :
  order ≡ₚ seqZ 0 (Z.of_nat (length buf)) ->
  par_for_total h order buf = imap (fun n x => h (Z.of_nat n) x) buf.
Proof.
  intros Hp. apply list_eq. intros j. rewrite foldl_alter_lookup, list_lookup_imap.
  - case_decide as Hj; [done|]. rewrite Hp, elem_of_seqZ in Hj.
    rewrite lookup_ge_None_2; [done | lia].
  - rewrite Hp. apply NoDup_seqZ.
  - apply Forall_forall. intros i Hi%list_elem_of_In. rewrite Hp, elem_of_seqZ in Hi. lia.
Qed.

Lemma loop_ok_spec f n : loop_ok f n = true <-> forall i, (0 <= i < n)%Z -> is_Some (f i).
Proof.
  unfold loop_ok. rewrite forallb_forall. split.
  - intros H i Hi. apply (bool_decide_eq_true_1 (is_Some (f i))), H.
    apply list_elem_of_In, elem_of_seqZ. lia.
  - intros H i Hi%list_elem_of_In%elem_of_seqZ. apply bool_decide_eq_true_2, H. lia.
Qed.

(** Any iteration order of the loop computes the reference result:
    the per-element loops of rft_3d.cpp are safe to parallelise. *)
Theorem par_for_perm f order buf :
  order ≡ₚ seqZ 0 (Z.of_nat (length buf)) -> par_for f order buf = pointwise f buf.
Proof.
  intros Hp. unfold pointwise.
  assert (Hmem : forall i, i ∈ order <-> (0 <= i < Z.of_nat (length buf))%Z).
  { intros i. rewrite Hp, elem_of_seqZ. lia. }
  destruct (loop_ok f _) eqn:Hok.
  - rewrite loop_ok_spec in Hok. rewrite par_for_ok by (intros i Hi; apply Hok, Hmem, Hi).
    f_equal. by apply par_for_total_perm.
  - destruct (par_for f order buf) as [r|] eqn:Hr; [exfalso|done].
    apply not_true_iff_false in Hok. apply Hok, loop_ok_spec. intros i Hi.
    destruct (f i) eqn:Hf; [done|].
    rewrite (par_for_fail f order buf i) in Hr; [done | by apply Hmem | done].
Qed.
End ParFor.

