(* ===== verification/Grid.v ===== *)
(** * The grid context of [cft_base]

    [rft_3d] inherits its grid from [cft_base] (not under src/; modelled
    from the spec, §3): the sizes [m_dim_x], [m_dim_y], [m_dim_z], the
    spacings in real and reciprocal space, the centring shifts, the
    reduced length [m_red_dim = m_dim_z/2 + 1] of the Hermitian-packed
    last axis, and the element counts [m_dim] and [m_dim_fs].  The record
    is immutable for the lifetime of the object.  [grid_wf] is what the
    constructor guarantees and the rest of the development assumes. *)

From S2P Require Import Prelude.

Record grid := mkGrid {
  m_dim_x : Z; m_dim_y : Z; m_dim_z : Z;
  m_shift_x : Z; m_shift_y : Z; m_shift_z : Z;
  m_dx : Qc; m_dy : Qc; m_dz : Qc;
  m_dkx : Qc; m_dky : Qc; m_dkz : Qc
}.

(** Length of the packed last axis: [m_dim_z/2 + 1] in C++ integer
    division. *)
Definition m_red_dim (g : grid) : Z := (Z.quot (m_dim_z g) 2 + 1)%Z.
Definition m_dim (g : grid) : Z := (m_dim_x g * m_dim_y g * m_dim_z g)%Z.
Definition m_dim_fs (g : grid) : Z := (m_dim_x g * m_dim_y g * m_red_dim g)%Z.

(** The grid [cft_base] builds from a header: shifts are the half sizes. *)
Definition centred_grid (nx ny nz : Z) (dx dy dz dkx dky dkz : Qc) : grid :=
  mkGrid nx ny nz (Z.quot nx 2) (Z.quot ny 2) (Z.quot nz 2) dx dy dz dkx dky dkz.

(** Well-formed grid: positive sizes, shifts inside the axes, and a real
    buffer of fewer than [2^62] elements, so that every offset, and an
    offset plus a shift, is an [int64_t]. *)
Definition grid_wf (g : grid) : Prop :=
  (0 < m_dim_x g /\ 0 < m_dim_y g /\ 0 < m_dim_z g /\
   0 <= m_shift_x g < m_dim_x g /\ 0 <= m_shift_y g < m_dim_y g /\
   0 <= m_shift_z g < m_dim_z g /\
   m_dim g < 2 ^ 62)%Z.

#[export] Instance grid_wf_dec g : Decision (grid_wf g).
Proof. unfold grid_wf. apply _. Defined.

(** The spec's reciprocity of the spacings fixed by the context:
    [dk * N * d = 2 pi] on every axis, with [tp] the value of [2 pi]. *)
Definition reciprocal_spacings (tp : Qc) (g : grid) : Prop :=
  (m_dkx g * m_dx g * Qc_of_Z (m_dim_x g) = tp /\ m_dky g * m_dy g * Qc_of_Z (m_dim_y g) = tp /\
   m_dkz g * m_dz g * Qc_of_Z (m_dim_z g) = tp)%Qc.

#[export] Instance reciprocal_spacings_dec tp g : Decision (reciprocal_spacings tp g).
Proof. unfold reciprocal_spacings. apply _. Defined.

Section GridFacts.
Context (g : grid) (Hg : grid_wf g).

Lemma red_dim_pos : (1 <= m_red_dim g)%Z.
Proof.
  destruct Hg as (_ & _ & Hz & _). unfold m_red_dim.
  pose proof (Z.quot_pos (m_dim_z g) 2). lia.
Qed.

(** [m_dim_z] is [2 (m_red_dim - 1)] or [2 (m_red_dim - 1) + 1]. *)
Lemma dim_z_red_dim :
  (m_dim_z g = 2 * (m_red_dim g - 1) \/ m_dim_z g = 2 * (m_red_dim g - 1) + 1)%Z.
Proof.
  destruct Hg as (_ & _ & Hz & _). unfold m_red_dim.
  rewrite Z.quot_div_nonneg by lia.
  pose proof (Z.div_mod (m_dim_z g) 2). pose proof (Z.mod_pos_bound (m_dim_z g) 2). lia.
Qed.

Lemma red_dim_le_dim_z : (m_red_dim g <= m_dim_z g)%Z.
Proof. pose proof dim_z_red_dim. pose proof red_dim_pos. destruct Hg as (_ & _ & Hz & _). lia. Qed.

Lemma red_dim_ge2_iff : (2 <= m_red_dim g <-> 2 <= m_dim_z g)%Z.
Proof. pose proof dim_z_red_dim. pose proof red_dim_pos. destruct Hg as (_ & _ & Hz & _). lia. Qed.

Lemma dim_fs_pos : (0 < m_dim_fs g)%Z.
Proof.
  destruct Hg as (Hx & Hy & _). pose proof red_dim_pos. unfold m_dim_fs.
  apply Z.mul_pos_pos; [apply Z.mul_pos_pos|]; lia.
Qed.

Lemma dim_pos : (0 < m_dim g)%Z.
Proof.
  destruct Hg as (Hx & Hy & Hz & _). unfold m_dim.
  apply Z.mul_pos_pos; [apply Z.mul_pos_pos|]; lia.
Qed.

Lemma dim_fs_le_dim : (m_dim_fs g <= m_dim g)%Z.
Proof.
  pose proof red_dim_le_dim_z. destruct Hg as (Hx & Hy & _).
  unfold m_dim_fs, m_dim. apply Z.mul_le_mono_nonneg_l; [nia | lia].
Qed.

(** Each axis is no longer than the whole buffer. *)
Lemma dims_le_dim :
  (m_dim_x g <= m_dim g /\ m_dim_y g <= m_dim g /\ m_dim_z g <= m_dim g)%Z.
Proof.
  destruct Hg as (Hx & Hy & Hz & _). unfold m_dim.
  assert (1 <= m_dim_x g * m_dim_y g)%Z by nia.
  assert (1 <= m_dim_y g * m_dim_z g)%Z by nia.
  repeat split; nia.
Qed.
End GridFacts.

#[export] Hint Resolve red_dim_pos dim_fs_pos dim_pos red_dim_le_dim_z dim_fs_le_dim : atus.
