(* ===== verification/Mapper.v ===== *)
(** * Index and coordinate mapper: [rft_3d::Get_k], [rft_3d::Get_x]

    [Get_k l] turns an offset into the packed complex buffer (last axis
    of length [m_red_dim]) into the frequency triple of that bin;
    [Get_x l] turns an offset into the real buffer into the coordinate
    triple of that sample.  Both are written with every [int64_t]
    operation checked ([Prelude.quot64] and friends), split into an
    integer part ([Get_k_idx], [Get_x_idx]) and the scaling by the
    spacings.  The abstract specification is the row-major decomposition
    [decomp] and the centred fold [fold_idx]. *)

From S2P Require Import Prelude Grid.

(** [CPoint<3>] *)
Record CPoint3 := P3 { px : Qc; py : Qc; pz : Qc }.

(** ** The code *)

(** rft_3d.cpp, [Get_k]: lines 75-80. *)
Definition Get_k_idx (g : grid) (l : Z) : option (Z * Z * Z) :=
  t ← quot64 l (m_dim_y g);
  i ← quot64 t (m_red_dim g);
  a ← mul64 i (m_dim_y g);
  iyr ← mul64 a (m_red_dim g);
  r ← sub64 l iyr;
  j ← quot64 r (m_red_dim g);
  jr ← mul64 j (m_red_dim g);
  k ← sub64 r jr;
  sx ← add64 i (m_shift_x g); fx ← rem64 sx (m_dim_x g); kx ← sub64 fx (m_shift_x g);
  sy ← add64 j (m_shift_y g); fy ← rem64 sy (m_dim_y g); ky ← sub64 fy (m_shift_y g);
  rz ← sub64 (m_red_dim g) 1; kz ← rem64 k rz;
  Some (kx, ky, kz).

Definition Get_k (g : grid) (l : Z) : option CPoint3 :=
  (fun '(a, b, c) => P3 (m_dkx g * Z2R a) (m_dky g * Z2R b) (m_dkz g * Z2R c))%Qc
    <$> Get_k_idx g l.

(** rft_3d.cpp, [Get_x]: lines 87-92. *)
Definition Get_x_idx (g : grid) (l : Z) : option (Z * Z * Z) :=
  t ← quot64 l (m_dim_y g);
  i ← quot64 t (m_dim_z g);
  a ← mul64 i (m_dim_y g);
  iyz ← mul64 a (m_dim_z g);
  r ← sub64 l iyz;
  j ← quot64 r (m_dim_z g);
  jz ← mul64 j (m_dim_z g);
  k ← sub64 r jz;
  x ← sub64 i (m_shift_x g); y ← sub64 j (m_shift_y g); z ← sub64 k (m_shift_z g);
  Some (x, y, z).

Definition Get_x (g : grid) (l : Z) : option CPoint3 :=
  (fun '(a, b, c) => P3 (Z2R a * m_dx g) (Z2R b * m_dy g) (Z2R c * m_dz g))%Qc
    <$> Get_x_idx g l.

(** ** The specification *)

(** The inverse of the row-major offset [Prelude.compose]. *)
Definition decomp (ny nr l : Z) : Z * Z * Z := (l / (ny * nr), (l / nr) mod ny, l mod nr)%Z.

(** Folding an unsigned index into the centred range [-s, n - s). *)
Definition fold_idx (n s i : Z) : Z := ((i + s) mod n - s)%Z.

(** The frequency index triple the spec gives for offset [l]. *)
Definition freq_idx (g : grid) (l : Z) : Z * Z * Z :=
  let '(i, j, k) := decomp (m_dim_y g) (m_red_dim g) l in
  (fold_idx (m_dim_x g) (m_shift_x g) i, fold_idx (m_dim_y g) (m_shift_y g) j,
   k mod (m_red_dim g - 1))%Z.

(** The frequency the spec gives for offset [l]. *)
Definition spec_k (g : grid) (l : Z) : CPoint3 :=
  let '(a, b, c) := freq_idx g l in
  P3 (m_dkx g * Z2R a) (m_dky g * Z2R b) (m_dkz g * Z2R c)%Qc.

(** The coordinate index triple the spec gives for offset [l]. *)
Definition coord_idx (g : grid) (l : Z) : Z * Z * Z :=
  let '(i, j, k) := decomp (m_dim_y g) (m_dim_z g) l in
  (i - m_shift_x g, j - m_shift_y g, k - m_shift_z g)%Z.

(** ** Decomposition lemmas *)

Lemma decomp_unique ny nr i j k :
  (0 <= i -> 0 <= j < ny -> 0 <= k < nr ->
   decomp ny nr (compose ny nr i j k) = (i, j, k))%Z.
Proof.
  intros Hi Hj Hk. unfold decomp, compose. f_equal; [f_equal|].
  - symmetry. apply (Z.div_unique_pos _ _ _ (j * nr + k)); [by apply row_bound | lia].
  - rewrite <- (Z.div_unique_pos _ _ (i * ny + j) k) by lia.
    symmetry. apply (Z.mod_unique_pos _ _ i); lia.
  - symmetry. apply (Z.mod_unique_pos _ _ (i * ny + j)); lia.
Qed.

Lemma decomp_range ny nr nx l :
  (0 < ny -> 0 < nr -> 0 <= l < nx * ny * nr ->
   let '(i, j, k) := decomp ny nr l in
   0 <= i < nx /\ 0 <= j < ny /\ 0 <= k < nr /\ compose ny nr i j k = l)%Z.
Proof.
  intros Hy Hr Hl. unfold decomp, compose.
  pose proof (Z.mod_pos_bound (l / nr) ny Hy). pose proof (Z.mod_pos_bound l nr Hr).
  replace (l / (ny * nr))%Z with (l / nr / ny)%Z by (rewrite Z.div_div, Z.mul_comm; lia).
  pose proof (Z.div_mod (l / nr) ny ltac:(lia)). pose proof (Z.div_mod l nr ltac:(lia)).
  assert (0 <= l / nr / ny)%Z by (apply Z.div_pos; [apply Z.div_pos|]; lia).
  assert (l / nr / ny < nx)%Z.
  { apply Z.div_lt_upper_bound; [lia|]. apply Z.div_lt_upper_bound; [lia|]. nia. }
  repeat split; nia.
Qed.

(** An offset below [nx * ny * nr] has its leading index below [nx]. *)
Lemma lead_index_lt nx ny nr i l :
  (0 < ny -> 0 < nr -> i * ny * nr <= l -> l < nx * ny * nr -> i < nx)%Z.
Proof.
  intros Hy Hr H1 H2. destruct (Z.lt_ge_cases i nx) as [|Hge]; [done|].
  assert (nx * (ny * nr) <= i * (ny * nr))%Z by (apply Z.mul_le_mono_nonneg_r; lia). lia.
Qed.

(** The centred fold is injective on one period. *)
Lemma fold_idx_inj n s i1 i2 :
  (0 <= i1 < n -> 0 <= i2 < n -> fold_idx n s i1 = fold_idx n s i2 -> i1 = i2)%Z.
Proof.
  unfold fold_idx. intros H1 H2 He.
  assert (He' : ((i1 + s) mod n = (i2 + s) mod n)%Z) by lia.
  pose proof (Z.div_mod (i1 + s) n ltac:(lia)). pose proof (Z.div_mod (i2 + s) n ltac:(lia)).
  assert ((i1 + s) / n = (i2 + s) / n)%Z by nia. nia.
Qed.

(** The centred fold lands in [-s, n - s). *)
Lemma fold_idx_range n s i : (0 < n -> - s <= fold_idx n s i < n - s)%Z.
Proof. intros Hn. unfold fold_idx. pose proof (Z.mod_pos_bound (i + s) n Hn). lia. Qed.

(** What the code's three quotient steps compute, for an offset in range
    (with C++ division on non-negative operands written as [/]): the
    [i, j, k] of [decomp], reconstructed with [compose]. *)
Lemma code_decomp ny nr l :
  (0 < ny -> 0 < nr -> 0 <= l ->
   let i := l / ny / nr in
   let j := (l - i * ny * nr) / nr in
   let k := l - i * ny * nr - j * nr in
   l = compose ny nr i j k /\ 0 <= i /\ 0 <= j < ny /\ 0 <= k < nr /\
   i * ny * nr <= l)%Z.
Proof.
  intros Hy Hr Hl i j k. subst i j k. rewrite Z.div_div by lia.
  set (i := (l / (ny * nr))%Z).
  pose proof (Z.div_mod l (ny * nr) ltac:(nia)) as Hd.
  pose proof (Z.mod_pos_bound l (ny * nr) ltac:(nia)) as Hm.
  replace (l - i * ny * nr)%Z with (l mod (ny * nr))%Z by (subst i; lia).
  pose proof (Z.div_mod (l mod (ny * nr)) nr ltac:(lia)).
  pose proof (Z.mod_pos_bound (l mod (ny * nr)) nr Hr).
  assert (0 <= i)%Z by (apply Z.div_pos; lia).
  assert (0 <= l mod (ny * nr) / nr)%Z by (apply Z.div_pos; lia).
  assert (l mod (ny * nr) / nr < ny)%Z by (apply Z.div_lt_upper_bound; lia).
  unfold compose. repeat split; nia.
Qed.

(** ** Refinement: the code computes the specification *)

Section Refinement.
Context (g : grid) (Hg : grid_wf g).

(** The facts about an in-range offset that the steps of [Get_k] and
    [Get_x] need: the operands of every step are in the [int64_t] range. *)
Lemma offset_facts ny nr l :
  (0 < ny -> 0 < nr -> 0 <= l < 2 ^ 62 ->
   let i := l / ny / nr in
   let j := (l - i * ny * nr) / nr in
   0 <= l / ny <= l /\ 0 <= i * ny <= l /\ 0 <= i * ny * nr <= l /\
   0 <= j * nr <= l - i * ny * nr /\
   decomp ny nr l = (i, j, l - i * ny * nr - j * nr))%Z.
Proof.
  intros Hy Hr Hl i j.
  pose proof (code_decomp ny nr l Hy Hr ltac:(lia)) as (Hc & Hi & Hj & Hk & Hb). cbv zeta in *.
  fold i j in Hc, Hi, Hj, Hk, Hb.
  pose proof (div_range l ny ltac:(lia) Hy).
  repeat split; try nia.
  rewrite Hc at 1. apply decomp_unique; lia.
Qed.

(** [Get_k] on a grid with at least two z-planes computes the centred
    frequency index of the spec, and none of its [int64_t] operations
    overflows or divides by zero. *)
Lemma Get_k_idx_spec l :
  (2 <= m_dim_z g)%Z -> (0 <= l < m_dim_fs g)%Z -> Get_k_idx g l = Some (freq_idx g l).
Proof.
  intros Hz Hl.
  pose proof (dims_le_dim g Hg). pose proof (dim_fs_le_dim g Hg).
  pose proof (red_dim_le_dim_z g Hg). pose proof (proj2 (red_dim_ge2_iff g Hg) Hz).
  pose proof (code_decomp (m_dim_y g) (m_red_dim g) l) as Hc.
  destruct Hg as (HX & HY & HZ & Hsx & Hsy & Hsz & Hdim).
  pose proof (offset_facts (m_dim_y g) (m_red_dim g) l HY ltac:(lia) ltac:(lia))
    as (Ho1 & Ho2 & Ho3 & Ho4 & Hd).
  destruct (Hc HY ltac:(lia) ltac:(lia)) as (Hc' & Hi & Hj & Hk & Hb). clear Hc.
  unfold freq_idx. rewrite Hd.
  assert (l / m_dim_y g / m_red_dim g < m_dim_x g)%Z
    by (apply (lead_index_lt _ (m_dim_y g) (m_red_dim g) _ l); unfold m_dim_fs in Hl; lia).
  pose proof (Z.mod_pos_bound (l / m_dim_y g / m_red_dim g + m_shift_x g) (m_dim_x g) HX).
  pose proof (Z.mod_pos_bound ((l - l / m_dim_y g / m_red_dim g * m_dim_y g * m_red_dim g)
                                 / m_red_dim g + m_shift_y g) (m_dim_y g) HY).
  unfold Get_k_idx. repeat step64. reflexivity.
Qed.

(** On a grid with a single z-plane, [m_red_dim - 1 = 0] and the
    modulus [k % (m_red_dim - 1)] of [Get_k] divides by zero: every
    call fails. *)
Lemma Get_k_idx_nz1 l :
  m_dim_z g = 1%Z -> (0 <= l < m_dim_fs g)%Z -> Get_k_idx g l = None.
Proof.
  intros Hz Hl.
  pose proof (dims_le_dim g Hg). pose proof (dim_fs_le_dim g Hg).
  pose proof (red_dim_le_dim_z g Hg).
  assert (HR : m_red_dim g = 1%Z) by (unfold m_red_dim; rewrite Hz; reflexivity).
  destruct Hg as (HX & HY & HZ & Hsx & Hsy & Hsz & Hdim).
  pose proof (offset_facts (m_dim_y g) (m_red_dim g) l HY ltac:(lia) ltac:(lia))
    as (Ho1 & Ho2 & Ho3 & Ho4 & _).
  pose proof (code_decomp (m_dim_y g) (m_red_dim g) l HY ltac:(lia) ltac:(lia))
    as (Hc & Hi & Hj & Hk & Hb).
  assert (l / m_dim_y g / m_red_dim g < m_dim_x g)%Z
    by (apply (lead_index_lt _ (m_dim_y g) (m_red_dim g) _ l); unfold m_dim_fs in Hl; lia).
  pose proof (Z.mod_pos_bound (l / m_dim_y g / m_red_dim g + m_shift_x g) (m_dim_x g) HX).
  pose proof (Z.mod_pos_bound ((l - l / m_dim_y g / m_red_dim g * m_dim_y g * m_red_dim g)
                                 / m_red_dim g + m_shift_y g) (m_dim_y g) HY).
  unfold Get_k_idx. rewrite HR in *. repeat step64. reflexivity.
Qed.

(** [Get_x] computes the signed coordinate index of the spec without
    overflow. *)
Lemma Get_x_idx_spec l : (0 <= l < m_dim g)%Z -> Get_x_idx g l = Some (coord_idx g l).
Proof.
  intros Hl. pose proof (dims_le_dim g Hg).
  destruct Hg as (HX & HY & HZ & Hsx & Hsy & Hsz & Hdim).
  pose proof (offset_facts (m_dim_y g) (m_dim_z g) l HY HZ ltac:(lia))
    as (Ho1 & Ho2 & Ho3 & Ho4 & Hd).
  pose proof (code_decomp (m_dim_y g) (m_dim_z g) l HY HZ ltac:(lia))
    as (Hc & Hi & Hj & Hk & Hb).
  unfold coord_idx. rewrite Hd.
  assert (l / m_dim_y g / m_dim_z g < m_dim_x g)%Z
    by (apply (lead_index_lt _ (m_dim_y g) (m_dim_z g) _ l); unfold m_dim in Hl; lia).
  unfold Get_x_idx. repeat step64. reflexivity.
Qed.
End Refinement.

Section MapperTheorems.
Context (g : grid) (Hg : grid_wf g).

Lemma Get_k_ok l :
  (2 <= m_dim_z g)%Z -> (0 <= l < m_dim_fs g)%Z -> Get_k g l = Some (spec_k g l).
Proof.
  intros Hz Hl. unfold Get_k, spec_k. rewrite (Get_k_idx_spec g Hg l Hz Hl).
  by destruct (freq_idx g l) as [[a b] c].
Qed.

Lemma Get_k_fail l : m_dim_z g = 1%Z -> (0 <= l < m_dim_fs g)%Z -> Get_k g l = None.
Proof. intros Hz Hl. unfold Get_k. by rewrite (Get_k_idx_nz1 g Hg l Hz Hl). Qed.

(** [C8] [Get_k] at the offset of packed bin [(i, j, k)] returns
    [dkx ((i + shift_x) mod Nx - shift_x)], [dky ((j + shift_y) mod Ny -
    shift_y)] and [dkz (k mod (Rz - 1))], the formula of the spec, on
    every grid with at least two z-planes. *)
Theorem Get_k_bin i j k :
  (2 <= m_dim_z g)%Z ->
  (0 <= i < m_dim_x g)%Z -> (0 <= j < m_dim_y g)%Z -> (0 <= k < m_red_dim g)%Z ->
  Get_k g (compose (m_dim_y g) (m_red_dim g) i j k) =
  Some (P3 (m_dkx g * Z2R (fold_idx (m_dim_x g) (m_shift_x g) i))
           (m_dky g * Z2R (fold_idx (m_dim_y g) (m_shift_y g) j))
           (m_dkz g * Z2R (k mod (m_red_dim g - 1))))%Qc.
Proof.
  intros Hz Hi Hj Hk. rewrite Get_k_ok by (done || apply compose_range; lia).
  unfold spec_k, freq_idx. by rewrite decomp_unique by lia.
Qed.

(** [C14] On a grid with one z-plane ([m_dim_z = 1], so
    [m_red_dim - 1 = 0]) [Get_k] divides by zero at every offset. *)
Theorem Get_k_div_by_zero l :
  m_dim_z g = 1%Z -> (0 <= l < m_dim_fs g)%Z ->
  (m_red_dim g - 1 = 0)%Z /\ Get_k g l = None.
Proof. intros Hz Hl. split; [unfold m_red_dim; by rewrite Hz | by apply Get_k_fail]. Qed.

(** [C16] The last packed z-bin [k = m_red_dim - 1] gets the same
    frequency as the bin [k = 0] of the same [(i, j)]: [Get_k] is not
    injective on the packed buffer. *)
Theorem Get_k_top_bin_collapse i j :
  (2 <= m_dim_z g)%Z -> (0 <= i < m_dim_x g)%Z -> (0 <= j < m_dim_y g)%Z ->
  Get_k g (compose (m_dim_y g) (m_red_dim g) i j (m_red_dim g - 1)) =
  Get_k g (compose (m_dim_y g) (m_red_dim g) i j 0).
Proof.
  intros Hz Hi Hj. pose proof (proj2 (red_dim_ge2_iff g Hg) Hz).
  rewrite !Get_k_ok by (done || apply compose_range; lia).
  unfold spec_k, freq_idx. rewrite !decomp_unique by lia.
  rewrite Z_mod_same_full, Z.mod_0_l by lia. reflexivity.
Qed.

(** [C32] Below the last z-bin the frequency index determines the
    offset: two offsets of the packed buffer whose z-bins are not the last
    one and which [Get_k_idx] maps to the same triple are equal. *)
Theorem Get_k_idx_injective l1 l2 :
  (2 <= m_dim_z g)%Z -> (0 <= l1 < m_dim_fs g)%Z -> (0 <= l2 < m_dim_fs g)%Z ->
  (l1 mod m_red_dim g < m_red_dim g - 1)%Z -> (l2 mod m_red_dim g < m_red_dim g - 1)%Z ->
  Get_k_idx g l1 = Get_k_idx g l2 -> l1 = l2.
Proof.
  intros Hz Hl1 Hl2 Hk1 Hk2 He.
  rewrite (Get_k_idx_spec g Hg l1 Hz Hl1), (Get_k_idx_spec g Hg l2 Hz Hl2) in He.
  unfold freq_idx, decomp in He. cbv beta iota in He. injection He as Ex Ey Ez.
  pose proof Hg as (HX & HY & _).
  pose proof (red_dim_pos g Hg).
  unfold m_dim_fs in *.
  pose proof (decomp_range (m_dim_y g) (m_red_dim g) (m_dim_x g) l1 HY ltac:(lia) Hl1) as R1.
  pose proof (decomp_range (m_dim_y g) (m_red_dim g) (m_dim_x g) l2 HY ltac:(lia) Hl2) as R2.
  unfold decomp in *.
  destruct R1 as (Hi1 & Hj1 & Hk1' & Hc1). destruct R2 as (Hi2 & Hj2 & Hk2' & Hc2).
  apply fold_idx_inj in Ex; [|lia..]. apply fold_idx_inj in Ey; [|lia..].
  rewrite (Z.mod_small (l1 mod m_red_dim g)), (Z.mod_small (l2 mod m_red_dim g)) in Ez by lia.
  rewrite <- Hc1, <- Hc2. f_equal; assumption.
Qed.

(** [C31] The frequency indices [Get_k] computes stay in the centred
    ranges [-shift_x <= kx < Nx - shift_x], [-shift_y <= ky < Ny -
    shift_y] and [0 <= kz < m_red_dim - 1], and every [int64_t] step
    on the way is in range. *)
Theorem Get_k_idx_bounds l :
  (2 <= m_dim_z g)%Z -> (0 <= l < m_dim_fs g)%Z ->
  exists kx ky kz, Get_k_idx g l = Some (kx, ky, kz) /\
    (- m_shift_x g <= kx < m_dim_x g - m_shift_x g)%Z /\
    (- m_shift_y g <= ky < m_dim_y g - m_shift_y g)%Z /\
    (0 <= kz < m_red_dim g - 1)%Z.
Proof.
  intros Hz Hl. rewrite (Get_k_idx_spec g Hg l Hz Hl).
  pose proof (proj2 (red_dim_ge2_iff g Hg) Hz). pose proof Hg as (HX & HY & _).
  unfold freq_idx. destruct (decomp _ _ l) as [[i j] k].
  do 3 eexists. split; [reflexivity|].
  split; [|split]; [apply fold_idx_range; lia | apply fold_idx_range; lia | ].
  apply Z.mod_pos_bound. lia.
Qed.

(** [C33] [Get_x] at the offset of sample [(i, j, k)] of the real
    buffer returns [((i - shift_x) dx, (j - shift_y) dy, (k - shift_z) dz)]. *)
Theorem Get_x_sample i j k :
  (0 <= i < m_dim_x g)%Z -> (0 <= j < m_dim_y g)%Z -> (0 <= k < m_dim_z g)%Z ->
  Get_x g (compose (m_dim_y g) (m_dim_z g) i j k) =
  Some (P3 (Z2R (i - m_shift_x g) * m_dx g) (Z2R (j - m_shift_y g) * m_dy g)
           (Z2R (k - m_shift_z g) * m_dz g))%Qc.
Proof.
  intros Hi Hj Hk. unfold Get_x.
  rewrite (Get_x_idx_spec g Hg) by (unfold m_dim; apply compose_range; lia).
  unfold coord_idx. by rewrite decomp_unique by lia.
Qed.
(** [C35] The coordinate indices [Get_x] computes for an offset of the
    real buffer stay in [-shift <= x < N - shift] on every axis, and every
    [int64_t] step on the way is in range. *)
Theorem Get_x_idx_bounds l :
  (0 <= l < m_dim g)%Z ->
  exists x y z, Get_x_idx g l = Some (x, y, z) /\
    (- m_shift_x g <= x < m_dim_x g - m_shift_x g)%Z /\
    (- m_shift_y g <= y < m_dim_y g - m_shift_y g)%Z /\
    (- m_shift_z g <= z < m_dim_z g - m_shift_z g)%Z.
Proof.
  intros Hl. rewrite (Get_x_idx_spec g Hg l Hl). pose proof Hg as (HX & HY & HZ & _).
  unfold m_dim in Hl.
  pose proof (decomp_range (m_dim_y g) (m_dim_z g) (m_dim_x g) l HY HZ Hl) as R.
  unfold coord_idx. destruct (decomp _ _ l) as [[i j] k]. destruct R as (Hi & Hj & Hk & _).
  do 3 eexists. split; [reflexivity|]. lia.
Qed.

(** [C36] [Get_x] inverts the row-major offset: from the coordinate
    indices it returns for an offset of the real buffer, shifting back
    and recomposing gives that offset again. *)
Theorem Get_x_idx_roundtrip l x y z :
  (0 <= l < m_dim g)%Z -> Get_x_idx g l = Some (x, y, z) ->
  compose (m_dim_y g) (m_dim_z g) (x + m_shift_x g) (y + m_shift_y g) (z + m_shift_z g) = l.
Proof.
  intros Hl E. rewrite (Get_x_idx_spec g Hg l Hl) in E. pose proof Hg as (HX & HY & HZ & _).
  unfold m_dim in Hl.
  pose proof (decomp_range (m_dim_y g) (m_dim_z g) (m_dim_x g) l HY HZ Hl) as R.
  unfold coord_idx in E. destruct (decomp _ _ l) as [[i j] k]. injection E as <- <- <-.
  rewrite !Z.sub_add. tauto.
Qed.
End MapperTheorems.

(** ** Witnesses on concrete grids

    [g444] is a centred 4x4x4 grid (packed length [m_red_dim = 3]);
    [g441] has a single z-plane. *)

Definition g444 : grid := centred_grid 4 4 4 1 1 1 (Q2Qc (1#4)) (Q2Qc (1#4)) (Q2Qc (1#4)).
Definition g441 : grid := centred_grid 4 4 1 1 1 1 1 1 1.

Lemma Get_k_bin_witness :
  Get_k g444 (compose (m_dim_y g444) (m_red_dim g444) 1 3 2) =
  Some (P3 (m_dkx g444 * Z2R (fold_idx (m_dim_x g444) (m_shift_x g444) 1))
           (m_dky g444 * Z2R (fold_idx (m_dim_y g444) (m_shift_y g444) 3))
           (m_dkz g444 * Z2R (2 mod (m_red_dim g444 - 1))))%Qc.
Proof. apply (Get_k_bin g444); [by_eval | by_eval ..]. Defined.

Lemma Get_k_div_by_zero_witness : (m_red_dim g441 - 1 = 0)%Z /\ Get_k g441 7 = None.
Proof. apply (Get_k_div_by_zero g441); [by_eval | by_eval ..]. Defined.

Lemma Get_k_top_bin_collapse_witness :
  Get_k g444 (compose (m_dim_y g444) (m_red_dim g444) 3 0 (m_red_dim g444 - 1)) =
  Get_k g444 (compose (m_dim_y g444) (m_red_dim g444) 3 0 0).
Proof. apply (Get_k_top_bin_collapse g444); [by_eval | by_eval ..]. Defined.

Lemma Get_k_idx_injective_witness : (10 = 10)%Z.
Proof. apply (Get_k_idx_injective g444); [by_eval | by_eval .. | reflexivity]. Defined.

Lemma Get_k_idx_bounds_witness :
  exists kx ky kz, Get_k_idx g444 29 = Some (kx, ky, kz) /\
    (- m_shift_x g444 <= kx < m_dim_x g444 - m_shift_x g444)%Z /\
    (- m_shift_y g444 <= ky < m_dim_y g444 - m_shift_y g444)%Z /\
    (0 <= kz < m_red_dim g444 - 1)%Z.
Proof. apply (Get_k_idx_bounds g444); [by_eval | by_eval ..]. Defined.

Lemma Get_x_sample_witness :
  Get_x g444 (compose (m_dim_y g444) (m_dim_z g444) 3 0 2) =
  Some (P3 (Z2R (3 - m_shift_x g444) * m_dx g444) (Z2R (0 - m_shift_y g444) * m_dy g444)
           (Z2R (2 - m_shift_z g444) * m_dz g444))%Qc.
Proof. apply (Get_x_sample g444); [by_eval | by_eval ..]. Defined.

Lemma Get_x_idx_bounds_witness :
  exists x y z, Get_x_idx g444 37 = Some (x, y, z) /\
    (- m_shift_x g444 <= x < m_dim_x g444 - m_shift_x g444)%Z /\
    (- m_shift_y g444 <= y < m_dim_y g444 - m_shift_y g444)%Z /\
    (- m_shift_z g444 <= z < m_dim_z g444 - m_shift_z g444)%Z.
Proof. apply (Get_x_idx_bounds g444); by_eval. Defined.

Lemma Get_x_idx_roundtrip_witness :
  compose (m_dim_y g444) (m_dim_z g444) (0 + m_shift_x g444) (-1 + m_shift_y g444)
    (-1 + m_shift_z g444) = 37%Z.
Proof. apply (Get_x_idx_roundtrip g444); by_eval. Defined.
