(* ===== verification/Fftw.v ===== *)
(** * The FFTW plans of [rft_3d]

    The constructor (rft_3d.cpp, lines 39-43) creates two FFTW plans bound
    to the object's buffers: [fftw_plan_dft_r2c_3d] from [m_in_real] to
    [m_out] and [fftw_plan_dft_c2r_3d] from [m_out] back to [m_in_real].
    FFTW itself is not under src/: the plans are the type class
    [FFTW_plans] of the grid, and what the library documents about them is
    the class [FFTW_laws]: buffer sizes, linearity, and the unnormalised
    round trip (a forward then a backward transform multiplies the data by
    the number of samples).  The c2r plan may overwrite its input
    (FFTW_DESTROY_INPUT is FFTW's default for c2r); [backward_clobber] is
    what it leaves in [m_out].

    [dft4_plans] is an implementation: the exact real DFT of a 1x1x4 grid,
    whose laws are proved, and which the witnesses use. *)

From S2P Require Import Prelude Grid.

Class FFTW_plans (g : grid) := {
  exec_forward : list Qc -> list cplx;
  exec_backward : list cplx -> list Qc;
  backward_clobber : list cplx -> list cplx
}.
Arguments exec_forward g {_} _.
Arguments exec_backward g {_} _.
Arguments backward_clobber g {_} _.

Abbreviation ndim g := (Z.to_nat (m_dim g)).
Abbreviation ndim_fs g := (Z.to_nat (m_dim_fs g)).

Class FFTW_laws (g : grid) `{!FFTW_plans g} : Prop := {
  forward_length f :
    length f = ndim g -> length (exec_forward g f) = ndim_fs g;
  backward_length c :
    length c = ndim_fs g -> length (exec_backward g c) = ndim g;
  clobber_length c :
    length c = ndim_fs g -> length (backward_clobber g c) = ndim_fs g;
  forward_add f1 f2 :
    length f1 = ndim g -> length f2 = ndim g ->
    exec_forward g (vadd f1 f2) = cvadd (exec_forward g f1) (exec_forward g f2);
  forward_scale s f :
    length f = ndim g -> exec_forward g (vscale s f) = cvscale s (exec_forward g f);
  backward_add c1 c2 :
    length c1 = ndim_fs g -> length c2 = ndim_fs g ->
    exec_backward g (cvadd c1 c2) = vadd (exec_backward g c1) (exec_backward g c2);
  backward_scale s c :
    length c = ndim_fs g -> exec_backward g (cvscale s c) = vscale s (exec_backward g c);
  backward_forward f :
    length f = ndim g -> exec_backward g (exec_forward g f) = vscale (Z2R (m_dim g)) f
}.

(** ** An implementation: the four-point real DFT *)

(** A grid of 1 x 1 x 4 points: [m_red_dim = 3], so the packed spectrum
    has the bins 0, 1 and the Nyquist frequency 2, and [Get_k] gives
    them [kz = 0, 1, 0].  The spacings satisfy the reciprocity
    [dx dy dz * dkx dky dkz * N = 1]. *)
Definition g114 : grid :=
  centred_grid 1 1 4 1%Qc 1%Qc 1%Qc 1%Qc 1%Qc (Q2Qc (1 # 4)).

(** [X_m = sum_n x_n e^(-2 pi i n m / 4)] for [m = 0, 1, 2]: the twiddle
    factors are [1, -i, -1, i], so the transform is exact. *)
Definition r2c_4 (f : list Qc) : list cplx :=
  match f with
  | [a; b; c; d] => [creal (a + b + c + d)%Qc; mkC (a - c)%Qc (d - b)%Qc; creal (a - b + c - d)%Qc]
  | _ => []
  end.

(** The unnormalised inverse of a Hermitian spectrum: [x_n = X_0 + 2 Re
    (X_1 i^n) + (-1)^n X_2]; like FFTW it ignores the imaginary parts of
    the bins 0 and [N/2]. *)
Definition c2r_4 (x : list cplx) : list Qc :=
  match x with
  | [x0; x1; x2] =>
      [(re x0 + (re x1 + re x1) + re x2)%Qc; (re x0 - (im x1 + im x1) - re x2)%Qc;
       (re x0 - (re x1 + re x1) + re x2)%Qc; (re x0 + (im x1 + im x1) - re x2)%Qc]
  | _ => []
  end.

#[export] Instance dft4_plans : FFTW_plans g114 :=
  {| exec_forward := r2c_4; exec_backward := c2r_4; backward_clobber := id |}.

(** Split a list whose length is a numeral into its elements. *)
Ltac destruct_len :=
  repeat match goal with
  | H : length ?l = O |- _ => destruct l; [clear H | discriminate H]
  | H : length ?l = S _ |- _ => destruct l; [discriminate H | cbn [length] in H; apply Nat.succ_inj in H]
  end.

Lemma g114_dim : Z2R (m_dim g114) = (1 + 1 + 1 + 1)%Qc.
Proof. unfold Z2R. change (m_dim g114) with (1 + 1 + 1 + 1)%Z. by rewrite !Z2Qc_inj_add, Z2Qc_inj_1. Qed.

(** Equality of two short lists of scalars or complex values, element by
    element, by [ring]. *)
Ltac list_ring :=
  repeat match goal with |- (_ :: _) = (_ :: _) => f_equal end;
  try cplx_ring; try ring.

#[export] Instance dft4_laws : FFTW_laws g114.
Proof.
  split; intros; change (Z.to_nat (m_dim g114)) with 4%nat in *;
    change (Z.to_nat (m_dim_fs g114)) with 3%nat in *; destruct_len; try reflexivity;
    cbn -[Qcplus Qcmult Qcminus Qcopp Z2R m_dim]; rewrite ?g114_dim; list_ring.
Qed.

