(* ===== verification/Transform.v ===== *)
(** * Transform and normalisation: [rft_3d::ft] and [rft_3d::scale]

    The object's mutable state is the two buffers and the direction of
    the last transform request ([m_isign]).  [ft isign] stores the
    direction, returns at once when it is not +1 or -1, and otherwise
    runs one FFTW plan and rescales the buffer it wrote; [scale] picks the
    buffer from [m_isign].  The buffers are shared with the FFTW plans:
    [exec_forward] reads [m_in_real] and writes [m_out], [exec_backward]
    reads [m_out] (possibly clobbering it) and writes [m_in_real]. *)

From S2P Require Import Prelude Grid Fftw.

Record rft_state := mkState { m_in_real : list Qc; m_out : list cplx; m_isign : Z }.

Definition set_in (b : list Qc) (s : rft_state) : rft_state := mkState b (m_out s) (m_isign s).
Definition set_out (c : list cplx) (s : rft_state) : rft_state := mkState (m_in_real s) c (m_isign s).
Definition set_isign (d : Z) (s : rft_state) : rft_state := mkState (m_in_real s) (m_out s) d.

(** Both buffers have the sizes the plans were created for. *)
Definition wf_state (g : grid) (s : rft_state) : Prop :=
  length (m_in_real s) = ndim g /\ length (m_out s) = ndim_fs g.

#[export] Instance wf_state_dec g s : Decision (wf_state g s).
Proof. unfold wf_state. apply _. Defined.

Section Transform.
Context (g : grid) `{!FFTW_plans g}.
(** The value of [pow(2*M_PI,1.5)]. *)
Variable c2pi15 : Qc.

(** rft_3d.cpp, [scale]: lines 256-275. *)
Definition scale (faktor : Qc) (s : rft_state) : rft_state :=
  if (m_isign s =? 1)%Z
  then set_in (par_for_total (fun _ x => x * faktor)%Qc (seqZ 0 (m_dim g)) (m_in_real s)) s
  else set_out (par_for_total (fun _ => cscale faktor) (seqZ 0 (m_dim_fs g)) (m_out s)) s.

Definition forward_factor : Qc := (m_dx g * m_dy g * m_dz g / c2pi15)%Qc.
Definition backward_factor : Qc := (m_dkx g * m_dky g * m_dkz g / c2pi15)%Qc.

(** [fftw_execute] of the two plans on the object's buffers. *)
Definition run_forward (s : rft_state) : rft_state :=
  set_out (exec_forward g (m_in_real s)) s.
Definition run_backward (s : rft_state) : rft_state :=
  mkState (exec_backward g (m_out s)) (backward_clobber g (m_out s)) (m_isign s).

(** rft_3d.cpp, [ft]: lines 55-70. *)
Definition ft (isign : Z) (s : rft_state) : rft_state :=
  let s := set_isign isign s in
  if negb (Z.abs isign =? 1)%Z then s
  else if (isign =? -1)%Z then scale forward_factor (run_forward s)
  else scale backward_factor (run_backward s).

(** ** Lemmas *)

Context `{!FFTW_laws g}.

Lemma imap_const {A B} (h : A -> B) (l : list A) : imap (fun _ x => h x) l = map h l.
Proof. apply list_eq. intros i. by rewrite list_lookup_imap, list_lookup_fmap. Qed.

Lemma scale_real faktor s :
  m_isign s = 1%Z -> length (m_in_real s) = ndim g ->
  scale faktor s = set_in (vscale faktor (m_in_real s)) s.
Proof.
  intros Hs Hl. unfold scale. rewrite Hs. simpl. f_equal.
  rewrite par_for_total_perm; [apply imap_const|]. by rewrite (seqZ_length (m_dim g)).
Qed.

Lemma scale_cplx faktor s :
  m_isign s <> 1%Z -> length (m_out s) = ndim_fs g ->
  scale faktor s = set_out (cvscale faktor (m_out s)) s.
Proof.
  intros Hs Hl. unfold scale. rewrite (proj2 (Z.eqb_neq _ _) Hs). f_equal.
  rewrite par_for_total_perm; [apply imap_const|]. by rewrite (seqZ_length (m_dim_fs g)).
Qed.

Lemma ft_forward s :
  length (m_in_real s) = ndim g -> ft (-1) s =
  mkState (m_in_real s) (cvscale forward_factor (exec_forward g (m_in_real s))) (-1).
Proof.
  intros Hl. unfold ft. cbn -[scale]. rewrite scale_cplx; [reflexivity | done |].
  destruct s; apply forward_length. done.
Qed.


Lemma ft_backward s :
  length (m_out s) = ndim_fs g -> ft 1 s =
  mkState (vscale backward_factor (exec_backward g (m_out s)))
    (backward_clobber g (m_out s)) 1.
Proof.
  intros Hl. unfold ft. cbn -[scale]. rewrite scale_real; [reflexivity | done |].
  destruct s; apply backward_length. done.
Qed.

(** [C27] A direction other than +1 and -1 is stored in [m_isign]
    and changes nothing else: both buffers are left as they were. *)
Theorem ft_guard d s : Z.abs d <> 1%Z -> ft d s = set_isign d s.
Proof. intros Hd. unfold ft. cbn. by rewrite (proj2 (Z.eqb_neq _ _) Hd). Qed.

Lemma ft_round_trip_gen s :
  wf_state g s -> (forward_factor * backward_factor * Z2R (m_dim g) = 1)%Qc ->
  m_in_real (ft 1 (ft (-1) s)) = m_in_real s.
Proof.
  intros [Hin Hout] Hrec. rewrite ft_forward by done.
  rewrite ft_backward by (cbn; rewrite length_cvscale; by apply forward_length).
  cbn. rewrite backward_scale by (by apply forward_length).
  rewrite backward_forward, !vscale_vscale by done.
  rewrite <- (vscale_1 (m_in_real s)) at 2. f_equal. rewrite <- Hrec. ring.
Qed.

(** The factors of lines 63 and 68 are reciprocal up to [N] when the
    spacings are, and [c2pi15] is [(2 pi)^1.5]. *)
Lemma factors_reciprocal tp :
  tp <> 0%Qc -> (c2pi15 * c2pi15 = tp * tp * tp)%Qc -> reciprocal_spacings tp g ->
  (forward_factor * backward_factor * Z2R (m_dim g) = 1)%Qc.
Proof.
  intros Htp Hc (Hx & Hy & Hz).
  assert (Hc0 : c2pi15 <> 0%Qc) by (intros E; rewrite E in Hc; apply Htp;
    destruct (Qcmult_integral _ _ (eq_sym Hc)) as [E'|E']; [|done];
    destruct (Qcmult_integral _ _ E'); done).
  unfold forward_factor, backward_factor, m_dim, Z2R. rewrite !Z2Qc_inj_mul.
  transitivity ((m_dkx g * m_dx g * Qc_of_Z (m_dim_x g)) * (m_dky g * m_dy g * Qc_of_Z (m_dim_y g)) *
                (m_dkz g * m_dz g * Qc_of_Z (m_dim_z g)) / (c2pi15 * c2pi15))%Qc.
  { field. exact Hc0. }
  rewrite Hx, Hy, Hz, Hc. field. exact Htp.
Qed.

(** [C9] When the two normalisation factors and the number of
    samples satisfy the discrete reciprocity [fwd * bwd * N = 1], a
    forward transform followed by a backward transform gives back the
    real buffer. *)
Theorem ft_round_trip s :
  wf_state g s ->
  (forward_factor * backward_factor * Z2R (m_dim g) = 1)%Qc ->
  m_in_real (ft 1 (ft (-1) s)) = m_in_real s.
Proof. apply ft_round_trip_gen. Qed.

(** [C10] With the factors [ft] computes ([dx dy dz / (2 pi)^1.5]
    forward, [dkx dky dkz / (2 pi)^1.5] backward), on every grid whose
    spacings satisfy the spec's reciprocity [dk N d = 2 pi], a forward
    transform followed by a backward transform gives back the real
    buffer exactly. *)
Theorem ft_round_trip_spacings tp s :
  wf_state g s -> tp <> 0%Qc -> (c2pi15 * c2pi15 = tp * tp * tp)%Qc -> reciprocal_spacings tp g ->
  m_in_real (ft 1 (ft (-1) s)) = m_in_real s.
Proof. intros Hw Htp Hc Hr. apply ft_round_trip_gen; [done|]. by apply (factors_reciprocal tp). Qed.

(** Every transform request keeps both buffers at the sizes the plans
    were created for. *)
Lemma ft_wf d s : wf_state g s -> wf_state g (ft d s).
Proof.
  intros [Hin Hout].
  destruct (decide (Z.abs d = 1%Z)) as [Hd|Hd];
    [|unfold ft; cbn; by rewrite (proj2 (Z.eqb_neq _ _) Hd)].
  assert (d = -1 \/ d = 1)%Z as [->| ->] by lia.
  - rewrite ft_forward by done. split; [done|]. cbn. rewrite length_cvscale. by apply forward_length.
  - rewrite ft_backward by done. split; cbn; [rewrite length_vscale; by apply backward_length|].
    by apply clobber_length.
Qed.

(** [C28] [scale] under a direction that is not +1 (such as the 0
    left by an ignored request) is not disabled: it rescales the packed
    complex buffer and leaves the real buffer alone. *)
Theorem scale_invalid_sign faktor s :
  m_isign s <> 1%Z -> wf_state g s ->
  m_in_real (scale faktor s) = m_in_real s /\ m_out (scale faktor s) = cvscale faktor (m_out s).
Proof. intros Hs [_ Hl]. by rewrite scale_cplx. Qed.

End Transform.

(** ** Witnesses on the four-point grid [g114]

    [s114] holds one period of a sine, [0, 1, 0, -1], an empty spectrum
    and no direction; with [c2pi15 = 1] the factors are [1] and [1/4],
    whose product with [N = 4] is [1]. *)

Definition s114 : rft_state := mkState [0%Qc; 1%Qc; 0%Qc; Z2R (-1)] [czero; czero; czero] 0.

Lemma ft_guard_witness : ft g114 1 0 s114 = set_isign 0 s114.
Proof. apply (ft_guard g114 1). lia. Defined.

Lemma ft_round_trip_witness : m_in_real (ft g114 1 1 (ft g114 1 (-1) s114)) = m_in_real s114.
Proof. apply (ft_round_trip g114 1); by_eval. Defined.

Lemma scale_invalid_sign_witness :
  m_in_real (scale g114 (Z2R 5) s114) = m_in_real s114 /\
  m_out (scale g114 (Z2R 5) s114) = cvscale (Z2R 5) (m_out s114).
Proof. apply (scale_invalid_sign g114); [cbn; lia | by_eval]. Defined.


Lemma ft_round_trip_spacings_witness :
  m_in_real (ft g114 1 1 (ft g114 1 (-1) s114)) = m_in_real s114.
Proof. apply (ft_round_trip_spacings g114 1 1); by_eval. Defined.
