(* ===== verification/Diff.v ===== *)
(** * Differential operators: [rft_3d::Diff_x] ... [rft_3d::Laplace]

    Each operator is [ft(-1)], a parallel loop over the packed spectrum
    that looks up the bin's frequency with [Get_k] and updates the bin in
    place, and [ft(1)].  The seven loop bodies are the per-bin updates
    [upd_Diff_x] ... [upd_Laplace]; the common skeleton is
    [spectral_op].  [CPoint<3>]'s [operator*] (not under src/) is the dot
    product [cpoint_dot]. *)

From S2P Require Import Prelude Grid Mapper Fftw Transform.

(** [CPoint<3>::operator*] on two points: the scalar product. *)
Definition cpoint_dot (a b : CPoint3) : Qc := (px a * px b + py a * py b + pz a * pz b)%Qc.

(** ** Per-bin updates (the bodies of the loops) *)

(** rft_3d.cpp lines 111-113: [tmp = re; re = -im*k[0]; im = tmp*k[0]]. *)
Definition upd_Diff_x (k : CPoint3) (c : cplx) : cplx :=
  let tmp := re c in mkC (- im c * px k)%Qc (tmp * px k)%Qc.
(** lines 133-135: both parts times [-(k[0]*k[0])]. *)
Definition upd_Diff_xx (k : CPoint3) (c : cplx) : cplx :=
  let tmp := (- (px k * px k))%Qc in mkC (re c * tmp)%Qc (im c * tmp)%Qc.
(** lines 155-157. *)
Definition upd_Diff_y (k : CPoint3) (c : cplx) : cplx :=
  let tmp := re c in mkC (- im c * py k)%Qc (tmp * py k)%Qc.
(** lines 177-179. *)
Definition upd_Diff_yy (k : CPoint3) (c : cplx) : cplx :=
  let tmp := (- (py k * py k))%Qc in mkC (re c * tmp)%Qc (im c * tmp)%Qc.
(** lines 199-201. *)
Definition upd_Diff_z (k : CPoint3) (c : cplx) : cplx :=
  let tmp := re c in mkC (- im c * pz k)%Qc (tmp * pz k)%Qc.
(** lines 221-223. *)
Definition upd_Diff_zz (k : CPoint3) (c : cplx) : cplx :=
  let tmp := (- (pz k * pz k))%Qc in mkC (re c * tmp)%Qc (im c * tmp)%Qc.
(** lines 243-245: [tmp = -(k*k)]. *)
Definition upd_Laplace (k : CPoint3) (c : cplx) : cplx :=
  let tmp := (- cpoint_dot k k)%Qc in mkC (re c * tmp)%Qc (im c * tmp)%Qc.

Section Operators.
Context (g : grid) `{!FFTW_plans g} (c2pi15 : Qc).

(** The loop [for (i = 0; i < m_dim_fs; i++) { k = Get_k(i); ... }]
    under [#pragma omp parallel for]. *)
Definition bin_loop (upd : CPoint3 -> cplx -> cplx) (out : list cplx) : option (list cplx) :=
  par_for (fun i => k ← Get_k g i; Some (upd k)) (seqZ 0 (m_dim_fs g)) out.

(** [ft(-1)], the loop on [m_out], [ft(1)]. *)
Definition spectral_op (upd : CPoint3 -> cplx -> cplx) (s : rft_state) : option rft_state :=
  let s1 := ft g c2pi15 (-1) s in
  out ← bin_loop upd (m_out s1);
  Some (ft g c2pi15 1 (set_out out s1)).

Definition Diff_x : rft_state -> option rft_state := spectral_op upd_Diff_x.
Definition Diff_xx : rft_state -> option rft_state := spectral_op upd_Diff_xx.
Definition Diff_y : rft_state -> option rft_state := spectral_op upd_Diff_y.
Definition Diff_yy : rft_state -> option rft_state := spectral_op upd_Diff_yy.
Definition Diff_z : rft_state -> option rft_state := spectral_op upd_Diff_z.
Definition Diff_zz : rft_state -> option rft_state := spectral_op upd_Diff_zz.
Definition Laplace : rft_state -> option rft_state := spectral_op upd_Laplace.

(** The spectral multiplication the spec describes: every bin updated
    with the frequency [spec_k] of its offset. *)
Definition apply_bins (upd : CPoint3 -> cplx -> cplx) (out : list cplx) : list cplx :=
  imap (fun n c => upd (spec_k g (Z.of_nat n)) c) out.

(** ** The loop *)

Context (Hg : grid_wf g).

Lemma bin_loop_ok upd out :
  (2 <= m_dim_z g)%Z -> length out = ndim_fs g -> bin_loop upd out = Some (apply_bins upd out).
Proof.
  intros Hz Hl. unfold bin_loop.
  rewrite par_for_perm by (by rewrite (seqZ_length (m_dim_fs g))).
  unfold pointwise.
  assert (Hk : forall i, (0 <= i < Z.of_nat (length out))%Z -> Get_k g i = Some (spec_k g i)).
  { intros i Hi. apply Get_k_ok; [done..|]. rewrite Hl in Hi. lia. }
  replace (loop_ok _ _) with true.
  - f_equal. apply imap_ext. intros n c Hn. apply lookup_lt_Some in Hn.
    unfold body. rewrite Hk by lia. reflexivity.
  - symmetry. apply loop_ok_spec. intros i Hi. rewrite Hk by done. by eexists.
Qed.

Lemma bin_loop_fail upd out :
  m_dim_z g = 1%Z -> bin_loop upd out = None.
Proof.
  intros Hz. unfold bin_loop. pose proof (dim_fs_pos g Hg).
  apply (par_for_fail _ _ _ 0); [apply elem_of_seqZ; lia|].
  rewrite Get_k_fail by (done || lia). reflexivity.
Qed.

Lemma length_apply_bins upd out : length (apply_bins upd out) = length out.
Proof. apply length_imap. Qed.
#[local] Hint Rewrite length_apply_bins : atus_rw.

(** ** The operators in closed form *)

Context `{!FFTW_laws g}.

(** The packed spectrum after [ft(-1)]. *)
Definition spectrum (f : list Qc) : list cplx :=
  cvscale (forward_factor g c2pi15) (exec_forward g f).

Lemma length_spectrum f : length f = ndim g -> length (spectrum f) = ndim_fs g.
Proof. intros. unfold spectrum. rewrite length_cvscale. by apply forward_length. Qed.

Lemma spectral_op_ok upd s :
  (2 <= m_dim_z g)%Z -> length (m_in_real s) = ndim g ->
  spectral_op upd s =
  Some (mkState (vscale (backward_factor g c2pi15)
                   (exec_backward g (apply_bins upd (spectrum (m_in_real s)))))
                (backward_clobber g (apply_bins upd (spectrum (m_in_real s)))) 1).
Proof.
  intros Hz Hin. unfold spectral_op.
  rewrite (ft_forward g c2pi15) by done. cbn [m_out].
  rewrite bin_loop_ok by (done || by apply length_spectrum).
  cbn. rewrite (ft_backward g c2pi15); [reflexivity|].
  cbn. rewrite length_apply_bins. by apply length_spectrum.
Qed.

Lemma spectral_op_fail upd s : m_dim_z g = 1%Z -> spectral_op upd s = None.
Proof. intros Hz. unfold spectral_op. by rewrite bin_loop_fail. Qed.
End Operators.

#[export] Hint Rewrite length_apply_bins : atus_rw.

(** Buffer-length side conditions. *)
Ltac lens := autorewrite with atus_rw; try done; try (by apply forward_length).

(** ** Per-bin algebra *)

(** The Laplacian's body is the sum of the three second-derivative bodies. *)
Lemma upd_Laplace_sum k c :
  upd_Laplace k c = upd_Diff_xx k c +c upd_Diff_yy k c +c upd_Diff_zz k c.
Proof. unfold upd_Laplace, cpoint_dot. cplx_ring. Qed.

Lemma apply_bins_Laplace g u :
  apply_bins g upd_Laplace u =
  cvadd (cvadd (apply_bins g upd_Diff_xx u) (apply_bins g upd_Diff_yy u)) (apply_bins g upd_Diff_zz u).
Proof.
  apply list_eq. intros n. unfold apply_bins, cvadd.
  rewrite !lookup_zip_with, !list_lookup_imap.
  destruct (u !! n); simpl; [by rewrite upd_Laplace_sum | done].
Qed.

(** [C3] The first-derivative bodies multiply the bin by [i k] along
    their axis and the second-derivative bodies by [-k^2]; applying a
    first-derivative body twice is the second-derivative body. *)
Theorem diff_bins_spectral k c :
  upd_Diff_x k c = cIk (px k) *c c /\ upd_Diff_xx k c = creal (- (px k * px k))%Qc *c c /\
  upd_Diff_x k (upd_Diff_x k c) = upd_Diff_xx k c /\
  upd_Diff_y k c = cIk (py k) *c c /\ upd_Diff_yy k c = creal (- (py k * py k))%Qc *c c /\
  upd_Diff_y k (upd_Diff_y k c) = upd_Diff_yy k c /\
  upd_Diff_z k c = cIk (pz k) *c c /\ upd_Diff_zz k c = creal (- (pz k * pz k))%Qc *c c /\
  upd_Diff_z k (upd_Diff_z k c) = upd_Diff_zz k c.
Proof. repeat split; cplx_ring. Qed.

(** ** The operators as the spec describes them

    The spec (§4.3) describes each operator by the polynomial in the
    frequency it multiplies the spectrum with: [i kx], [-kx^2], [i ky],
    [-ky^2], [i kz], [-kz^2] and [-|k|^2], in the order of rft_3d.cpp. *)
Definition spec_multipliers : list (CPoint3 -> cplx) :=
  [fun k => cIk (px k); fun k => creal (- (px k * px k))%Qc;
   fun k => cIk (py k); fun k => creal (- (py k * py k))%Qc;
   fun k => cIk (pz k); fun k => creal (- (pz k * pz k))%Qc;
   fun k => creal (- (px k * px k + py k * py k + pz k * pz k))%Qc].

(** The seven loop bodies, in the same order. *)
Definition diff_bodies : list (CPoint3 -> cplx -> cplx) :=
  [upd_Diff_x; upd_Diff_xx; upd_Diff_y; upd_Diff_yy; upd_Diff_z; upd_Diff_zz; upd_Laplace].

(** Each body is the multiplication by its multiplier. *)
Lemma diff_bodies_mult :
  Forall2 (fun upd mult => forall k c, upd k c = mult k *c c) diff_bodies spec_multipliers.
Proof.
  repeat constructor; intros k c; apply cplx_ext; cbn; unfold cpoint_dot; ring.
Qed.

(** ** Operator-level properties *)

Section Properties.
Context (g : grid) `{!FFTW_plans g} `{!FFTW_laws g} (c2pi15 : Qc) (Hg : grid_wf g).


Lemma spectral_op_defined upd s :
  length (m_in_real s) = ndim g -> is_Some (spectral_op g c2pi15 upd s) <-> (2 <= m_dim_z g)%Z.
Proof.
  intros Hin. pose proof Hg as (_ & _ & HZ & _). split.
  - intros [s' Hs]. destruct (decide (2 <= m_dim_z g)%Z) as [|Hz]; [done|].
    by rewrite (spectral_op_fail g c2pi15 Hg) in Hs by lia.
  - intros Hz. rewrite (spectral_op_ok g c2pi15 Hg) by done. by eexists.
Qed.


(** The seven operators of rft_3d.cpp. *)
Definition diff_ops : list (rft_state -> option rft_state) :=
  [Diff_x g c2pi15; Diff_xx g c2pi15; Diff_y g c2pi15; Diff_yy g c2pi15;
   Diff_z g c2pi15; Diff_zz g c2pi15; Laplace g c2pi15].

(** A property of each of the seven operators. *)
Ltac forall_ops tac :=
  unfold diff_ops; forall_list tac.

(** [C11] Each of the seven operators returns a result exactly when
    the grid has at least two z-planes; with one z-plane it traps in
    [Get_k] (integer division by zero). *)
Theorem diff_ops_defined s :
  length (m_in_real s) = ndim g ->
  Forall (fun op => is_Some (op s) <-> (2 <= m_dim_z g)%Z) diff_ops.
Proof. intros Hin. forall_ops ltac:(apply spectral_op_defined; done). Qed.


(** [C1] [Laplace] is the sum of the three second derivatives:
    the real buffer it leaves is the elementwise sum of the buffers
    [Diff_xx], [Diff_yy] and [Diff_zz] leave on the same input. *)
Theorem Laplace_decomposition s sL sx sy sz :
  length (m_in_real s) = ndim g ->
  Laplace g c2pi15 s = Some sL -> Diff_xx g c2pi15 s = Some sx ->
  Diff_yy g c2pi15 s = Some sy -> Diff_zz g c2pi15 s = Some sz ->
  m_in_real sL = vadd (vadd (m_in_real sx) (m_in_real sy)) (m_in_real sz).
Proof.
  intros Hin EL Ex Ey Ez.
  destruct (decide (2 <= m_dim_z g)%Z) as [Hz|Hz]; cycle 1.
  { pose proof Hg as (_ & _ & HZ & _).
    unfold Laplace in EL. by rewrite (spectral_op_fail g c2pi15 Hg) in EL by lia. }
  unfold Laplace, Diff_xx, Diff_yy, Diff_zz in *.
  rewrite (spectral_op_ok g c2pi15 Hg) in EL, Ex, Ey, Ez by done.
  injection EL as <-. injection Ex as <-. injection Ey as <-. injection Ez as <-. cbn.
  pose proof (length_spectrum g c2pi15 (m_in_real s) Hin).
  set (sp := spectrum g c2pi15 (m_in_real s)) in *.
  assert (Hl : forall upd, length (apply_bins g upd sp) = ndim_fs g) by (intros; lens).
  rewrite apply_bins_Laplace, backward_add;
    [| rewrite length_cvadd; rewrite ?Hl; done | apply Hl].
  rewrite backward_add by apply Hl.
  by rewrite !vscale_vadd.
Qed.

(** [C34] The operators read only the real buffer: whatever the
    packed buffer and the stored direction hold before the call, the
    result is the same. *)
Theorem diff_ops_input_only s c d :
  Forall (fun op => op (mkState (m_in_real s) c d) = op s) diff_ops.
Proof. forall_ops ltac:(reflexivity). Qed.


(** [C4] The loops of [Diff_z] and [Diff_zz] run to the end and set
    the last packed z-bin of every [(i, j)] to zero: [Get_k] gives that
    bin the frequency [kz = 0]. *)
Theorem Diff_z_top_bin_zero out i j :
  (2 <= m_dim_z g)%Z -> length out = ndim_fs g ->
  (0 <= i < m_dim_x g)%Z -> (0 <= j < m_dim_y g)%Z ->
  Forall (fun upd => exists out', bin_loop g upd out = Some out' /\
    out' !! Z.to_nat (compose (m_dim_y g) (m_red_dim g) i j (m_red_dim g - 1)) = Some czero)
    [upd_Diff_z; upd_Diff_zz].
Proof.
  intros Hz Hl Hi Hj. pose proof (proj2 (red_dim_ge2_iff g Hg) Hz).
  set (l := compose (m_dim_y g) (m_red_dim g) i j (m_red_dim g - 1)).
  assert (Hr : (0 <= l < m_dim_fs g)%Z) by (apply compose_range; lia).
  assert (Hk : exists kx ky, spec_k g l = P3 kx ky 0%Qc).
  { unfold spec_k, freq_idx, l. rewrite decomp_unique by lia. cbn.
    rewrite Z_mod_same_full. unfold Z2R. rewrite Z2Qc_inj_0. do 2 eexists. f_equal. ring. }
  destruct Hk as (kx & ky & Hk).
  assert (Hn : (Z.to_nat l < length out)%nat) by (rewrite Hl; lia).
  apply lookup_lt_is_Some_2 in Hn as [c Hc].
  apply Forall_cons_2; [|apply Forall_cons_2; [|apply Forall_nil_2]];
    eexists; (split; [by apply (bin_loop_ok g Hg)|]);
    unfold apply_bins; rewrite list_lookup_imap, Hc, Z2Nat.id, Hk by lia; cbn;
    f_equal; apply cplx_ext; cbn; ring.
Qed.
End Properties.

(** ** Refinement *)

Section Refinement.
Context (g : grid) `{!FFTW_plans g} `{!FFTW_laws g} (c2pi15 : Qc) (Hg : grid_wf g).

(** The spec's operator with multiplier [mult]: the normalised forward
    transform, every bin [n] times [mult (frequencyAt n)], the normalised
    backward transform. *)
Definition spec_derivative (mult : CPoint3 -> cplx) (f : list Qc) : list Qc :=
  vscale (backward_factor g c2pi15)
    (exec_backward g (imap (fun n c => mult (spec_k g (Z.of_nat n)) *c c)
                        (cvscale (forward_factor g c2pi15) (exec_forward g f)))).

Lemma apply_bins_mult upd mult u :
  (forall k c, upd k c = mult k *c c) ->
  apply_bins g upd u = imap (fun n c => mult (spec_k g (Z.of_nat n)) *c c) u.
Proof. intros Hm. unfold apply_bins. apply imap_ext. intros n c _. apply Hm. Qed.

(** [C2] Each of the seven operators refines the spec: on a grid with at
    least two z-planes and a real buffer of the plans' size it returns,
    leaves in the real buffer the spec's operator with its multiplier
    ([i kx], [-kx^2], ..., [-|k|^2]) applied to the input, and leaves
    [m_isign = 1]. *)
Theorem diff_ops_refine s :
  (2 <= m_dim_z g)%Z -> length (m_in_real s) = ndim g ->
  Forall2 (fun op mult => exists s', op s = Some s' /\
             m_in_real s' = spec_derivative mult (m_in_real s) /\ m_isign s' = 1%Z)
    (diff_ops g c2pi15) spec_multipliers.
Proof.
  intros Hz Hin. change (diff_ops g c2pi15) with (spectral_op g c2pi15 <$> diff_bodies).
  apply Forall2_fmap_l. eapply Forall2_impl; [|exact diff_bodies_mult]. intros upd mult Hm.
  unfold "∘"; cbv beta.
  rewrite (spectral_op_ok g c2pi15 Hg) by done. eexists. split; [reflexivity|].
  cbn. unfold spec_derivative, spectrum. by rewrite (apply_bins_mult upd mult).
Qed.
End Refinement.


(** ** Witnesses on the four-point grid [g114] with [c2pi15 = 1] *)

Lemma Laplace_decomposition_witness :
  m_in_real (default s114 (Laplace g114 1 s114)) =
  vadd (vadd (m_in_real (default s114 (Diff_xx g114 1 s114)))
             (m_in_real (default s114 (Diff_yy g114 1 s114))))
       (m_in_real (default s114 (Diff_zz g114 1 s114))).
Proof.
  apply (Laplace_decomposition g114 1 ltac:(by_eval) s114); [by_eval | vm_compute; reflexivity ..].
Defined.

Lemma diff_ops_defined_witness :
  Forall (fun op => is_Some (op s114) <-> (2 <= m_dim_z g114)%Z) (diff_ops g114 1).
Proof. apply (diff_ops_defined g114 1 ltac:(by_eval) s114). by_eval. Defined.


Lemma Diff_z_top_bin_zero_witness :
  Forall (fun upd => exists out', bin_loop g114 upd [creal 1; creal (Z2R 2); creal (Z2R 3)] = Some out' /\
    out' !! Z.to_nat (compose (m_dim_y g114) (m_red_dim g114) 0 0 (m_red_dim g114 - 1)) = Some czero)
    [upd_Diff_z; upd_Diff_zz].
Proof. apply (Diff_z_top_bin_zero g114); by_eval. Defined.


Lemma diff_ops_refine_witness :
  Forall2 (fun op mult => exists s', op s114 = Some s' /\
             m_in_real s' = spec_derivative g114 1 mult (m_in_real s114) /\ m_isign s' = 1%Z)
    (diff_ops g114 1) spec_multipliers.
Proof. apply (diff_ops_refine g114 1 ltac:(by_eval)); by_eval. Defined.

(** The operators evaluated on one period of a sine, [s114]: with
    [dkz = 1/4], [Diff_z] gives [1/4] times the cosine and [Diff_zz] and
    [Laplace] give [-1/16] times the sine. *)
Example Diff_z_sine :
  option_map (fun s => map this (m_in_real s)) (Diff_z g114 1 s114) = Some [1#4; 0; -1#4; 0]%Q.
Proof. vm_compute. reflexivity. Qed.

Example Diff_zz_sine :
  option_map (fun s => map this (m_in_real s)) (Diff_zz g114 1 s114) = Some [0; -1#16; 0; 1#16]%Q.
Proof. vm_compute. reflexivity. Qed.

Example Laplace_sine :
  option_map (fun s => map this (m_in_real s)) (Laplace g114 1 s114) = Some [0; -1#16; 0; 1#16]%Q.
Proof. vm_compute. reflexivity. Qed.
