(* ===== verification/Display.v ===== *)
(** * The gpo3 slice printers (src/source/vis/src/gpo3.cpp, lines 34-474)

    [gpo3] reads a stored field and prints slices of it.  The command line
    sets option bits ([I_CONST] ... [PH]) and fixed indices [i0], [j0],
    [k0]; [main] (file [Gpo3Main]) dispatches on the header's [nDims] and
    [bComplex] to one of the [display_*] printers of this file.  A printer's output is the list of rows
    it prints ([Row] of the printed numbers, [Blank] for a lone newline);
    a read outside the field buffer is undefined behaviour and makes the
    printer return [None].  The coordinate of a row is accumulated by
    [x += dx] in the loops ([acc_loop]).  The printers copy the header's
    [long long] dimensions into [int]s ([to_int32]) and compute the
    offsets [ijk] and [ij] in [int] ([idx3_32], [idx2_32]): an offset
    that overflows [int] is undefined behaviour and [None] as well.
    [atan2] and the external [sign] are parameters.

    The theorems: when each printer reads only inside the field, the
    inputs the buggy guards let through and the [int] overflow of the
    offsets, where the printer fails; the rows each branch prints in
    closed form ([ClosedForms], shared lemmas [acc_loop_some] and
    [acc_loop_line]); and the number of rows each loop prints. *)

From S2P Require Import Prelude.
From Stdlib Require String.

(** ** Option bits: lines 34-43 *)

Definition I_CONST : Z := 1.
Definition J_CONST : Z := 2.
Definition K_CONST : Z := 4.
Definition RT : Z := 8.
Definition IT : Z := 16.
Definition BW : Z := 32.
Definition PH : Z := 128.

(** [opt & bit] tested as a condition. *)
Definition has (opt bit : Z) : bool := negb (Z.land opt bit =? 0)%Z.

(** [if (v < 0 || v > lim) opt &= ~bit;] *)
Definition guard_idx (opt bit v lim : Z) : Z :=
  if ((v <? 0) || (lim <? v))%Z then Z.land opt (Z.lnot bit) else opt.

(** [generic_header] (declared in my_structs.h, outside src/): the
    fields gpo3 reads or prints.  [ht], [hdt], [hdx] ... [hdkz] are the
    header's [t], [dt], [dx] ... [dkz]. *)
Record header := mkHeader {
  nDims : Z; nDimX : Z; nDimY : Z; nDimZ : Z; nDatatyp : Z; bAtom : Z; bComplex : Z;
  ht : Qc; hdt : Qc; xMin : Qc; xMax : Qc; yMin : Qc; yMax : Qc; zMin : Qc; zMax : Qc;
  hdx : Qc; hdy : Qc; hdz : Qc; hdkx : Qc; hdky : Qc; hdkz : Qc
}.

(** One line of output: the numbers a slice printer prints ([Row]), a
    lone newline ([Blank]), a line of text ([Text]), and a header line
    [label value] printed with [%lld] or [%d] ([IntLine]) or [%g]
    ([RealLine]). *)
Inductive row :=
  | Row (vals : list Qc) | Blank | Text (s : String.string)
  | IntLine (label : String.string) (v : Z) | RealLine (label : String.string) (v : Qc).

(** [field[ijk]]: a read outside the buffer is undefined. *)
Definition read {A} (field : list A) (ijk : Z) : option A :=
  if (0 <=? ijk)%Z then field !! Z.to_nat ijk else None.

(** [v = v0; for (n = 0; n < cnt; n++) { v += d; body(n, v); }] *)
Fixpoint acc_loop (cnt : nat) (n : Z) (v d : Qc)
    (body : Z -> Qc -> option (list row)) : option (list row) :=
  match cnt with
  | O => Some []
  | S c => let v' := (v + d)%Qc in
           r ← body n v'; rs ← acc_loop c (n + 1)%Z v' d body; Some (r ++ rs)
  end.

(** [ijk = k+dimZ*(j+dimY*i)] evaluated in [int]: [dimY*i], [j + _],
    [dimZ*_], [k + _]. *)
Definition idx3_32 (ny nz i j k : Z) : option Z :=
  a ← mul32 ny i; b ← add32 j a; c ← mul32 nz b; add32 k c.

(** [ij = j+dimY*i] evaluated in [int]. *)
Definition idx2_32 (ny i j : Z) : option Z := a ← mul32 ny i; add32 j a.

Section Printers.
Variable atan2 : Qc -> Qc -> Qc.
Variable sign : Qc -> Qc.

(** ** Projections of a complex value: lines 47-65 *)
Definition mode1 (rt it : Qc) : Qc := rt.
Definition mode2 (rt it : Qc) : Qc := it.
Definition mode3 (rt it : Qc) : Qc := (rt * rt + it * it)%Qc.
Definition mode4 (rt it : Qc) : Qc := atan2 it rt.

(** The choice of [fkt]: lines 84-87. *)
Definition fkt_of (opt : Z) : Qc -> Qc -> Qc :=
  if has opt RT then mode1 else if has opt IT then mode2
  else if has opt PH then mode4 else mode3.

(** ** [display_3D] (lines 68-185 for complex, 188-299 for real fields)

    The two overloads differ only in the printed value of an element:
    [val] is [fkt(re, im)] or the real value itself. *)
Definition display_3D_with {A} (val : A -> Qc) (field : list A) (h : header)
    (opt i0 j0 k0 : Z) : option (list row) :=
  let dimX := to_int32 (nDimX h) in let dimY := to_int32 (nDimY h) in
  let dimZ := to_int32 (nDimZ h) in
  let x0 := (xMin h - hdx h)%Qc in let y0 := (yMin h - hdy h)%Qc in
  let z0 := (zMin h - hdz h)%Qc in
  let opt := guard_idx opt I_CONST i0 dimX in
  let opt := guard_idx opt J_CONST j0 dimY in
  let opt := guard_idx opt K_CONST k0 dimY in
  let get i j k := ijk ← idx3_32 dimY dimZ i j k; val <$> read field ijk in
  if (Z.land opt (Z.lor I_CONST J_CONST) =? Z.lor I_CONST J_CONST)%Z then
    acc_loop (Z.to_nat dimZ) 0 z0 (hdz h) (fun k z =>
      v ← get i0 j0 k; Some [Row [z; v]])
  else if (Z.land opt (Z.lor I_CONST K_CONST) =? Z.lor I_CONST K_CONST)%Z then
    acc_loop (Z.to_nat dimY) 0 y0 (hdy h) (fun j y =>
      v ← get i0 j k0; Some [Row [y; v]])
  else if (Z.land opt (Z.lor J_CONST K_CONST) =? Z.lor J_CONST K_CONST)%Z then
    acc_loop (Z.to_nat dimX) 0 x0 (hdx h) (fun i x =>
      v ← get i j0 k0; Some [Row [x; v]])
  else if has opt K_CONST then
    acc_loop (Z.to_nat dimX) 0 x0 (hdx h) (fun i x =>
      rs ← acc_loop (Z.to_nat dimY) 0 y0 (hdy h) (fun j y =>
        v ← get i j k0; Some [Row [x; y; v]]);
      Some (rs ++ [Blank]))
  else if has opt J_CONST then
    acc_loop (Z.to_nat dimX) 0 x0 (hdx h) (fun i x =>
      rs ← acc_loop (Z.to_nat dimZ) 0 z0 (hdz h) (fun k z =>
        v ← get i j0 k; Some [Row [x; z; v]]);
      Some (rs ++ [Blank]))
  else if has opt I_CONST then
    acc_loop (Z.to_nat dimY) 0 y0 (hdy h) (fun j y =>
      rs ← acc_loop (Z.to_nat dimZ) 0 z0 (hdz h) (fun k z =>
        v ← get i0 j k; Some [Row [y; z; v]]);
      Some (rs ++ [Blank]))
  else Some [].

(** ** [display_2D] (lines 302-363 for complex, 366-442 for real fields)

    [last] prints one point of the full 2-D picture: [fkt(re, im)] for a
    complex field; [sign(v)] or [v] for a real one, by the [BW] bit. *)
Definition display_2D_with {A} (val : A -> Qc) (last : Z -> A -> Qc) (field : list A)
    (h : header) (opt i0 j0 : Z) : option (list row) :=
  let dimX := to_int32 (nDimX h) in let dimY := to_int32 (nDimY h) in
  let x0 := (xMin h - hdx h)%Qc in let y0 := (yMin h - hdy h)%Qc in
  let opt := guard_idx opt I_CONST i0 dimX in
  let opt := guard_idx opt J_CONST j0 dimY in
  let get i j := ij ← idx2_32 dimY i j; read field ij in
  if has opt I_CONST then
    acc_loop (Z.to_nat dimY) 0 y0 (hdy h) (fun j y =>
      v ← val <$> get i0 j; Some [Row [y; v]])
  else if has opt J_CONST then
    acc_loop (Z.to_nat dimX) 0 x0 (hdx h) (fun i x =>
      v ← val <$> get i j0; Some [Row [x; v]])
  else
    acc_loop (Z.to_nat dimX) 0 x0 (hdx h) (fun i x =>
      rs ← acc_loop (Z.to_nat dimY) 0 y0 (hdy h) (fun j y =>
        v ← last opt <$> get i j; Some [Row [x; y; v]]);
      Some (rs ++ [Blank])).

Definition display_2D_c (field : list cplx) (h : header) (opt i0 j0 : Z) :=
  display_2D_with (fun c => fkt_of opt (re c) (im c)) (fun o c => fkt_of o (re c) (im c))
    field h opt i0 j0.
Definition display_2D_r (field : list Qc) (h : header) (opt i0 j0 : Z) :=
  display_2D_with (fun v => v) (fun o v => if has o BW then sign v else v) field h opt i0 j0.

(** ** [display_1D] (lines 445-460 and 463-474): [const int dimX]. *)
Definition display_1D_c (field : list cplx) (h : header) : option (list row) :=
  acc_loop (Z.to_nat (to_int32 (nDimX h))) 0 (xMin h - hdx h)%Qc (hdx h) (fun i x =>
    c ← read field i;
    Some [Row [x; (re c * re c + im c * im c)%Qc; re c; im c; atan2 (im c) (re c)]]).
Definition display_1D_r (field : list Qc) (h : header) : option (list row) :=
  acc_loop (Z.to_nat (to_int32 (nDimX h))) 0 (xMin h - hdx h)%Qc (hdx h) (fun i x =>
    v ← read field i; Some [Row [x; v]]).

Definition display_3D_c (field : list cplx) (h : header) (opt i0 j0 k0 : Z) :=
  display_3D_with (fun c => fkt_of opt (re c) (im c)) field h opt i0 j0 k0.
Definition display_3D_r (field : list Qc) (h : header) (opt i0 j0 k0 : Z) :=
  display_3D_with (fun v => v) field h opt i0 j0 k0.

End Printers.

(** ** Loop lemmas *)

Lemma acc_loop_is_Some cnt n v d body :
  (forall m x, (n <= m < n + Z.of_nat cnt)%Z -> is_Some (body m x)) ->
  is_Some (acc_loop cnt n v d body).
Proof.
  revert n v. induction cnt as [|c IH]; intros n v Hb; cbn; [by eexists|].
  destruct (Hb n (v + d)%Qc ltac:(lia)) as [r Hr]. rewrite Hr. cbn.
  destruct (IH (n + 1)%Z (v + d)%Qc) as [rs Hrs]; [intros m x Hm; apply Hb; lia|].
  rewrite Hrs. by eexists.
Qed.

(** The accumulated coordinate of iteration [m] is [v + (m + 1) d]. *)
Lemma acc_loop_closed cnt n v d (f : Z -> Qc -> list row) :
  acc_loop cnt n v d (fun m x => Some (f m x)) =
  Some (concat (map (fun m => f (n + Z.of_nat m)%Z (v + Z2R (Z.of_nat m + 1) * d)%Qc) (seq 0 cnt))).
Proof.
  revert n v. induction cnt as [|c IH]; intros n v; cbn; [done|].
  rewrite IH. cbn. f_equal. f_equal.
  - f_equal; [lia|]. change (Z.of_nat 0 + 1)%Z with 1%Z. unfold Z2R. rewrite Z2Qc_inj_1. ring.
  - rewrite <- seq_shift, map_map. f_equal. apply map_ext. intros m. f_equal; [lia|].
    unfold Z2R. rewrite !Z2Qc_inj_add, Nat2Z.inj_succ, <- Z.add_1_r, Z2Qc_inj_add, Z2Qc_inj_1. ring.
Qed.

Lemma acc_loop_ext cnt n v d body body' :
  (forall m x, (n <= m < n + Z.of_nat cnt)%Z -> body m x = body' m x) ->
  acc_loop cnt n v d body = acc_loop cnt n v d body'.
Proof.
  revert n v. induction cnt as [|c IH]; intros n v Hb; cbn; [done|].
  rewrite Hb by lia. destruct (body' n (v + d)%Qc); cbn; [|done].
  rewrite IH; [done|]. intros m x Hm. apply Hb. lia.
Qed.

(** ** Reads and option bits *)

Lemma read_is_Some {A} (field : list A) i :
  (0 <= i < Z.of_nat (length field))%Z -> is_Some (read field i).
Proof.
  intros Hi. unfold read. rewrite (proj2 (Z.leb_le 0 i)) by lia.
  apply lookup_lt_is_Some_2. lia.
Qed.

Lemma read_oob {A} (field : list A) i : (Z.of_nat (length field) <= i)%Z -> read field i = None.
Proof.
  intros Hi. unfold read. rewrite (proj2 (Z.leb_le 0 i)) by lia.
  apply lookup_ge_None_2. lia.
Qed.

Lemma bind_some_is_Some {X Y} (m : option X) (g : X -> Y) :
  is_Some m -> is_Some (x ← m; Some (g x)).
Proof. intros [x ->]. by eexists. Qed.

(** Offsets of the 3-D and 2-D printers are row-major offsets. *)
Lemma idx3 nx ny nz i j k :
  (0 <= i < nx -> 0 <= j < ny -> 0 <= k < nz -> 0 <= k + nz * (j + ny * i) < nx * ny * nz)%Z.
Proof.
  intros Hi Hj Hk. replace (k + nz * (j + ny * i))%Z with (compose ny nz i j k) by (unfold compose; ring).
  by apply compose_range.
Qed.

Lemma idx2 nx ny i j : (0 <= i < nx -> 0 <= j < ny -> 0 <= j + ny * i < nx * ny)%Z.
Proof. intros Hi Hj. pose proof (row_bound nx ny i j Hi Hj). lia. Qed.

(** Offsets computed in [int]: exact when the field has at most
    [INT_MAX] elements, and never a value other than the exact one. *)
Lemma idx3_32_ok nx ny nz i j k :
  (0 <= i < nx -> 0 <= j < ny -> 0 <= k < nz -> nx * ny * nz <= int32_max ->
   idx3_32 ny nz i j k = Some (k + nz * (j + ny * i)))%Z.
Proof.
  intros Hi Hj Hk Hn. pose proof (idx3 nx ny nz i j k Hi Hj Hk).
  assert (0 <= ny * i <= j + ny * i)%Z by nia.
  assert (j + ny * i <= nz * (j + ny * i))%Z by nia.
  unfold idx3_32, mul32, add32, int32_min in *.
  rewrite (ret32_ok (ny * i)) by (unfold int32_min; lia). cbn.
  rewrite (ret32_ok (j + ny * i)) by (unfold int32_min; lia). cbn.
  rewrite (ret32_ok (nz * (j + ny * i))) by (unfold int32_min; lia). cbn.
  apply ret32_ok. unfold int32_min. lia.
Qed.

Lemma idx3_32_Some ny nz i j k v :
  idx3_32 ny nz i j k = Some v -> v = (k + nz * (j + ny * i))%Z.
Proof.
  unfold idx3_32, mul32, add32. intros E.
  repeat match goal with
         H : _ ≫= _ = Some _ |- _ => apply bind_Some in H as (? & [-> _]%ret32_Some & H) end.
  by apply ret32_Some in E as [-> _].
Qed.

Lemma idx2_32_ok nx ny i j :
  (0 <= i < nx -> 0 <= j < ny -> nx * ny <= int32_max -> idx2_32 ny i j = Some (j + ny * i))%Z.
Proof.
  intros Hi Hj Hn. pose proof (idx2 nx ny i j Hi Hj). assert (0 <= ny * i)%Z by nia.
  unfold idx2_32, mul32, add32. rewrite (ret32_ok (ny * i)) by (unfold int32_min; lia). cbn.
  apply ret32_ok. unfold int32_min. lia.
Qed.

Lemma idx2_32_Some ny i j v : idx2_32 ny i j = Some v -> v = (j + ny * i)%Z.
Proof.
  unfold idx2_32, mul32, add32. intros E.
  apply bind_Some in E as (? & [-> _]%ret32_Some & E). by apply ret32_Some in E as [-> _].
Qed.

(** A read at an offset past the end of the field is undefined, whether
    the offset overflowed [int] on the way or not. *)
Lemma get3_oob {A B} (g : A -> B) (field : list A) ny nz i j k :
  (Z.of_nat (length field) <= k + nz * (j + ny * i))%Z ->
  (ijk ← idx3_32 ny nz i j k; g <$> read field ijk) = None.
Proof.
  intros Hn. destruct (idx3_32 ny nz i j k) eqn:E; [|done]. apply idx3_32_Some in E as ->.
  cbn. by rewrite read_oob.
Qed.

Lemma get2_oob {A} (field : list A) ny i j :
  (Z.of_nat (length field) <= j + ny * i)%Z -> (ij ← idx2_32 ny i j; read field ij) = None.
Proof.
  intros Hn. destruct (idx2_32 ny i j) eqn:E; [|done]. apply idx2_32_Some in E as ->.
  cbn. by rewrite read_oob.
Qed.

(** An offset that does not fit [int] is signed overflow. *)
Lemma get3_overflow {A B} (g : A -> B) (field : list A) ny nz i j k :
  (int32_max < k + nz * (j + ny * i))%Z ->
  (ijk ← idx3_32 ny nz i j k; g <$> read field ijk) = None.
Proof.
  intros Hn. destruct (idx3_32 ny nz i j k) as [v|] eqn:E; [exfalso|done].
  pose proof E as E'. apply idx3_32_Some in E' as ->.
  unfold idx3_32, add32 in E.
  repeat match goal with H : _ ≫= _ = Some _ |- _ => apply bind_Some in H as (? & _ & H) end.
  apply ret32_Some in E. lia.
Qed.

Lemma get3_is_Some {A B} (g : A -> B) (field : list A) nx ny nz i j k :
  (0 <= i < nx -> 0 <= j < ny -> 0 <= k < nz -> nx * ny * nz <= int32_max ->
   Z.of_nat (length field) = nx * ny * nz ->
   is_Some (ijk ← idx3_32 ny nz i j k; g <$> read field ijk))%Z.
Proof.
  intros Hi Hj Hk Hn Hl. rewrite (idx3_32_ok nx) by done. cbn.
  apply fmap_is_Some, read_is_Some. rewrite Hl. by apply idx3.
Qed.

Lemma get2_is_Some {A} (field : list A) nx ny i j :
  (0 <= i < nx -> 0 <= j < ny -> nx * ny <= int32_max ->
   Z.of_nat (length field) = nx * ny -> is_Some (ij ← idx2_32 ny i j; read field ij))%Z.
Proof.
  intros Hi Hj Hn Hl. rewrite (idx2_32_ok nx) by done. cbn.
  apply read_is_Some. rewrite Hl. by apply idx2.
Qed.

(** The [int] copies of dimensions whose product fits [int]. *)
Lemma dims_to_int32 a b c :
  (0 < a -> 0 < b -> 0 < c -> a * b * c <= int32_max ->
   to_int32 a = a /\ to_int32 b = b /\ to_int32 c = c)%Z.
Proof.
  intros Ha Hb Hc Hn. unfold int32_max in Hn.
  split; [|split]; apply to_int32_small; unfold int32_min, int32_max; nia.
Qed.

(** Safe reads inside the printers' loops: what remains are the offset
    bounds. *)
Ltac loop_safe :=
  repeat first [ apply acc_loop_is_Some; intros ?m ?x ?Hm
               | apply bind_some_is_Some
               | apply fmap_is_Some
               | apply read_is_Some ].

Lemma has_pow2 o n : (0 <= n)%Z -> has o (2 ^ n) = Z.testbit o n.
Proof.
  intros Hn. unfold has. destruct (Z.testbit o n) eqn:E.
  - destruct (Z.eqb_spec (Z.land o (2 ^ n)) 0) as [H0|]; [|done].
    exfalso. assert (Ht := f_equal (fun z => Z.testbit z n) H0). cbn beta in Ht.
    rewrite Z.land_spec, E, Z.pow2_bits_true, Z.testbit_0_l in Ht by done. discriminate.
  - replace (Z.land o (2 ^ n)) with 0%Z; [done|].
    apply Z.bits_inj'. intros m Hm. rewrite Z.land_spec, Z.pow2_bits_eqb, Z.testbit_0_l by done.
    destruct (Z.eqb_spec n m) as [->|]; [by rewrite E | by rewrite andb_false_r].
Qed.

Lemma guard_in o bit v lim : (0 <= v <= lim)%Z -> guard_idx o bit v lim = o.
Proof.
  intros Hv. unfold guard_idx.
  rewrite (proj2 (Z.ltb_ge v 0)), (proj2 (Z.ltb_ge lim v)) by lia. done.
Qed.

Lemma guard_bit o n v lim :
  (0 <= n)%Z -> Z.testbit (guard_idx o (2 ^ n) v lim) n = true -> (0 <= v <= lim)%Z.
Proof.
  intros Hn. unfold guard_idx. destruct ((v <? 0) || (lim <? v))%Z eqn:E.
  - rewrite Z.land_spec, Z.lnot_spec, Z.pow2_bits_true by done. by rewrite andb_false_r.
  - intros _. apply orb_false_iff in E as [E1 E2]. apply Z.ltb_ge in E1, E2. lia.
Qed.

Lemma guard_other o n m v lim :
  (0 <= n)%Z -> (0 <= m)%Z -> m <> n ->
  Z.testbit (guard_idx o (2 ^ n) v lim) m = Z.testbit o m.
Proof.
  intros Hn Hm Hne. unfold guard_idx. destruct (_ || _); [|done].
  rewrite Z.land_spec, Z.lnot_spec, Z.pow2_bits_eqb by done.
  rewrite (proj2 (Z.eqb_neq n m)) by congruence. apply andb_true_r.
Qed.

Lemma guard_clear o n m v lim :
  Z.testbit o m = false -> Z.testbit (guard_idx o (2 ^ n) v lim) m = false.
Proof.
  intros Ho. unfold guard_idx. destruct (_ || _); [|done].
  by rewrite Z.land_spec, Ho.
Qed.

Lemma land_pair o a b :
  (0 <= a)%Z -> (0 <= b)%Z ->
  (Z.land o (Z.lor (2 ^ a) (2 ^ b)) =? Z.lor (2 ^ a) (2 ^ b))%Z = true ->
  Z.testbit o a = true /\ Z.testbit o b = true.
Proof.
  intros Ha Hb H. apply Z.eqb_eq in H.
  pose proof (f_equal (fun z => Z.testbit z a) H) as Ea.
  pose proof (f_equal (fun z => Z.testbit z b) H) as Eb. cbn beta in Ea, Eb.
  rewrite Z.land_spec, !Z.lor_spec, !Z.pow2_bits_true in Ea, Eb by done.
  rewrite orb_true_l, andb_true_r in Ea. rewrite orb_true_r, andb_true_r in Eb. done.
Qed.

(** ** [display_3D]: when its reads stay inside the field *)

Section Display3D.
Context {A : Type} (val : A -> Qc) (field : list A) (h : header).
Hypotheses (HX : (0 < nDimX h)%Z) (HY : (0 < nDimY h)%Z) (HZ : (0 < nDimZ h)%Z).
Hypothesis Hlen : length field = Z.to_nat (nDimX h * nDimY h * nDimZ h).
(** Every offset of the field is an [int]. *)
Hypothesis Hint : (nDimX h * nDimY h * nDimZ h <= int32_max)%Z.

(** The bits the three guards leave set bound the fixed indices. *)
Lemma guards_3D opt i0 j0 k0 :
  let o := guard_idx (guard_idx (guard_idx opt I_CONST i0 (nDimX h)) J_CONST j0 (nDimY h))
             K_CONST k0 (nDimY h) in
  (Z.testbit o 0 = true -> 0 <= i0 <= nDimX h)%Z /\
  (Z.testbit o 1 = true -> 0 <= j0 <= nDimY h)%Z /\
  (Z.testbit o 2 = true -> 0 <= k0 <= nDimY h)%Z.
Proof.
  cbv zeta. change I_CONST with (2 ^ 0)%Z. change J_CONST with (2 ^ 1)%Z.
  change K_CONST with (2 ^ 2)%Z.
  split; [|split]; intros Hb.
  - rewrite !guard_other in Hb by lia. by apply guard_bit in Hb.
  - rewrite guard_other in Hb by lia. by apply guard_bit in Hb.
  - by apply guard_bit in Hb.
Qed.

(** [display_3D] reads only inside the field whenever the fixed indices
    avoid the values its guards wrongly accept. *)
Lemma display_3D_safe opt i0 j0 k0 :
  i0 <> nDimX h -> j0 <> nDimY h -> (k0 < nDimZ h \/ nDimY h < k0)%Z ->
  is_Some (display_3D_with val field h opt i0 j0 k0).
Proof.
  intros Hi Hj Hk. unfold display_3D_with. cbv zeta.
  destruct (dims_to_int32 _ _ _ HX HY HZ Hint) as (-> & -> & ->).
  destruct (guards_3D opt i0 j0 k0) as (GI & GJ & GK). cbv zeta in GI, GJ, GK.
  set (o := guard_idx (guard_idx (guard_idx opt I_CONST i0 (nDimX h)) J_CONST j0 (nDimY h))
              K_CONST k0 (nDimY h)) in *.
  assert (Hl : Z.of_nat (length field) = (nDimX h * nDimY h * nDimZ h)%Z)
    by (rewrite Hlen; apply Z2Nat.id; nia).
  change I_CONST with (2 ^ 0)%Z; change J_CONST with (2 ^ 1)%Z; change K_CONST with (2 ^ 2)%Z.
  rewrite !has_pow2 by lia.
  destruct (Z.land o (Z.lor (2 ^ 0) (2 ^ 1)) =? Z.lor (2 ^ 0) (2 ^ 1))%Z eqn:E1;
    [apply land_pair in E1 as [B1 B2]; [|lia..]|].
  { loop_safe. apply (get3_is_Some _ _ (nDimX h)); [apply GI in B1 | apply GJ in B2 | | done..]; lia. }
  destruct (Z.land o (Z.lor (2 ^ 0) (2 ^ 2)) =? Z.lor (2 ^ 0) (2 ^ 2))%Z eqn:E2;
    [apply land_pair in E2 as [B1 B3]; [|lia..]|].
  { loop_safe. apply (get3_is_Some _ _ (nDimX h)); [apply GI in B1 | | apply GK in B3 | done..]; lia. }
  destruct (Z.land o (Z.lor (2 ^ 1) (2 ^ 2)) =? Z.lor (2 ^ 1) (2 ^ 2))%Z eqn:E3;
    [apply land_pair in E3 as [B2 B3]; [|lia..]|].
  { loop_safe. apply (get3_is_Some _ _ (nDimX h)); [| apply GJ in B2 | apply GK in B3 | done..]; lia. }
  destruct (Z.testbit o 2) eqn:B3.
  { specialize (GK eq_refl). loop_safe. apply (get3_is_Some _ _ (nDimX h)); [lia.. | done | done]. }
  destruct (Z.testbit o 1) eqn:B2.
  { specialize (GJ eq_refl). loop_safe. apply (get3_is_Some _ _ (nDimX h)); [lia.. | done | done]. }
  destruct (Z.testbit o 0) eqn:B1.
  { specialize (GI eq_refl). loop_safe. apply (get3_is_Some _ _ (nDimX h)); [lia.. | done | done]. }
  by eexists.
Qed.
End Display3D.

Lemma acc_loop_none cnt n v d body m :
  (n <= m < n + Z.of_nat cnt)%Z -> (forall x, body m x = None) -> acc_loop cnt n v d body = None.
Proof.
  revert n v. induction cnt as [|c IH]; intros n v Hm Hb; cbn; [lia|].
  destruct (body n (v + d)%Qc) eqn:E; cbn; [|done].
  destruct (Z.eq_dec m n) as [->|Hne]; [by rewrite Hb in E|].
  rewrite (IH (n + 1)%Z); [done | lia | done].
Qed.


Lemma land_pair_2 o a b :
  (0 <= a)%Z -> (0 <= b)%Z -> Z.testbit o a = true -> Z.testbit o b = true ->
  (Z.land o (Z.lor (2 ^ a) (2 ^ b)) =? Z.lor (2 ^ a) (2 ^ b))%Z = true.
Proof.
  intros Ha Hb Ea Eb. apply Z.eqb_eq, Z.bits_inj'. intros n Hn.
  rewrite Z.land_spec, Z.lor_spec, !Z.pow2_bits_eqb by done.
  destruct (Z.eqb_spec a n) as [<-|]; [by rewrite Ea|].
  destruct (Z.eqb_spec b n) as [<-|]; [by rewrite Eb|]. apply andb_false_r.
Qed.

Lemma concat_map_singleton {X Y} (f : X -> Y) (l : list X) :
  concat (map (fun x => [f x]) l) = map f l.
Proof. induction l as [|x l IH]; cbn; [done|]. by rewrite IH. Qed.

Section Display3DBugs.
Context {A : Type} (val : A -> Qc) (field : list A) (h : header).
Hypotheses (HX : (0 < nDimX h)%Z) (HY : (0 < nDimY h)%Z) (HZ : (0 < nDimZ h)%Z).
Hypothesis Hlen : length field = Z.to_nat (nDimX h * nDimY h * nDimZ h).
Hypothesis Hint : (nDimX h * nDimY h * nDimZ h <= int32_max)%Z.

(** [C6] The guard [i0 > dimX] lets [i0 = dimX] through: a line along
    z with [-i dimX] and a valid [-j] reads past the end of the field. *)
Theorem display_3D_i0_dimX_oob opt j0 k0 :
  Z.testbit opt 0 = true -> Z.testbit opt 1 = true -> (0 <= j0 < nDimY h)%Z ->
  display_3D_with val field h opt (nDimX h) j0 k0 = None.
Proof.
  intros B0 B1 Hj. unfold display_3D_with. cbv zeta.
  destruct (dims_to_int32 _ _ _ HX HY HZ Hint) as (-> & -> & ->).
  rewrite (guard_in _ I_CONST) by lia. rewrite (guard_in _ J_CONST) by lia.
  change K_CONST with (2 ^ 2)%Z. change I_CONST with (2 ^ 0)%Z. change J_CONST with (2 ^ 1)%Z.
  rewrite land_pair_2; [|lia|lia| by rewrite guard_other by lia | by rewrite guard_other by lia].
  apply (acc_loop_none _ _ _ _ _ 0); [lia|]. intros x.
  rewrite get3_oob; [done|]. rewrite Hlen, Z2Nat.id by nia. nia.
Qed.

(** [C7] The guard on [k0] compares it with [dimY] instead of [dimZ]:
    with only [-k] given and [dimY < k0 < dimZ], a valid plane, the bit is
    cleared and nothing is printed. *)
Theorem display_3D_k0_guard_dimY i0 j0 k0 :
  (nDimY h < k0 < nDimZ h)%Z -> display_3D_with val field h K_CONST i0 j0 k0 = Some [].
Proof.
  intros Hk. unfold display_3D_with, guard_idx. cbv zeta.
  destruct (dims_to_int32 _ _ _ HX HY HZ Hint) as (-> & -> & ->).
  rewrite (proj2 (Z.ltb_lt (nDimY h) k0)) by lia. rewrite orb_true_r.
  destruct (_ || _)%Z, (_ || _)%Z; reflexivity.
Qed.

(** [C17] The same guard lets [dimZ <= k0 <= dimY] through: the
    plane [k = k0] is then read past the end of the field. *)
Theorem display_3D_k0_oob i0 j0 k0 :
  (nDimZ h <= k0 <= nDimY h)%Z -> display_3D_with val field h K_CONST i0 j0 k0 = None.
Proof.
  intros Hk. unfold display_3D_with. cbv zeta.
  destruct (dims_to_int32 _ _ _ HX HY HZ Hint) as (-> & -> & ->).
  rewrite (guard_in _ K_CONST) by lia.
  assert (Hopt : forall o, o = K_CONST \/ o = Z.land K_CONST (Z.lnot I_CONST) ->
    guard_idx o J_CONST j0 (nDimY h) = K_CONST).
  { intros o Ho. unfold guard_idx. destruct Ho as [-> | ->]; destruct (_ || _); reflexivity. }
  rewrite Hopt by (unfold guard_idx; destruct (_ || _); [right|left]; reflexivity).
  cbn -[acc_loop read].
  apply (acc_loop_none _ _ _ _ _ (nDimX h - 1)); [lia|]. intros x. cbn.
  rewrite (acc_loop_none _ _ _ _ _ (nDimY h - 1)); [done | lia |]. intros y.
  rewrite get3_oob; [done|]. rewrite Hlen, Z2Nat.id by nia. nia.
Qed.
End Display3DBugs.

(** [C15] The offsets [ijk = k+dimZ*(j0+dimY*i0)] are computed in
    [int] (gpo3.cpp line 99): on a grid of more than [2^31] points, each
    of whose dimensions fits [int], the line along z through the last
    [(i0, j0)] overflows [int] before it reaches its last point, whatever
    the field holds. *)
Theorem display_3D_int_overflow {A} (val : A -> Qc) (field : list A) h opt k0 :
  (0 < nDimX h <= int32_max)%Z -> (0 < nDimY h <= int32_max)%Z -> (0 < nDimZ h <= int32_max)%Z ->
  (2 ^ 31 < nDimX h * nDimY h * nDimZ h)%Z ->
  Z.testbit opt 0 = true -> Z.testbit opt 1 = true ->
  display_3D_with val field h opt (nDimX h - 1) (nDimY h - 1) k0 = None.
Proof.
  intros HX HY HZ HN B0 B1. unfold display_3D_with. cbv zeta.
  rewrite !to_int32_small by (unfold int32_min; lia).
  rewrite (guard_in _ I_CONST) by lia. rewrite (guard_in _ J_CONST) by lia.
  change K_CONST with (2 ^ 2)%Z. change I_CONST with (2 ^ 0)%Z. change J_CONST with (2 ^ 1)%Z.
  rewrite land_pair_2; [|lia|lia| by rewrite guard_other by lia | by rewrite guard_other by lia].
  apply (acc_loop_none _ _ _ _ _ (nDimZ h - 1)); [lia|]. intros x.
  rewrite get3_overflow; [done|].
  replace (nDimZ h - 1 + nDimZ h * (nDimY h - 1 + nDimY h * (nDimX h - 1)))%Z
    with (nDimX h * nDimY h * nDimZ h - 1)%Z by ring.
  unfold int32_max. lia.
Qed.

Lemma display_1D_r_rows field h :
  (Z.to_nat (to_int32 (nDimX h)) <= length field)%nat ->
  display_1D_r field h =
  Some (imap (fun i v => Row [(xMin h + Z2R (Z.of_nat i) * hdx h)%Qc; v])
             (take (Z.to_nat (to_int32 (nDimX h))) field)).
Proof.
  intros Hl. unfold display_1D_r.
  rewrite (acc_loop_ext _ _ _ _ _
    (fun m x => Some [Row [x; default 0%Qc (field !! Z.to_nat m)]])).
  2: { intros m x Hm. unfold read. rewrite (proj2 (Z.leb_le 0 m)) by lia.
       destruct (lookup_lt_is_Some_2 field (Z.to_nat m)) as [v Hv]; [lia|]. by rewrite Hv. }
  rewrite acc_loop_closed, concat_map_singleton. f_equal.
  apply list_eq. intros i. rewrite list_lookup_fmap, list_lookup_imap.
  destruct (decide (i < Z.to_nat (to_int32 (nDimX h)))%nat) as [Hi|Hi].
  - rewrite lookup_seq_lt, lookup_take_lt by done. cbn.
    destruct (lookup_lt_is_Some_2 field i) as [v Hv]; [lia|].
    replace (Z.to_nat (0 + Z.of_nat i)) with i by lia. rewrite Hv. cbn.
    do 3 f_equal. unfold Z2R. rewrite Z2Qc_inj_add, Z2Qc_inj_1. ring.
  - rewrite lookup_seq_ge, lookup_take_ge by lia. done.
Qed.

(** [C12] The coordinate [x] accumulated by [x += dx] from
    [xMin - dx] is [xMin + i dx] at sample [i]: the 1-D real printer
    prints the rows [(xMin + i dx, field[i])]. *)
Theorem display_1D_r_closed field h :
  (Z.to_nat (to_int32 (nDimX h)) <= length field)%nat ->
  display_1D_r field h =
  Some (imap (fun i v => Row [(xMin h + Z2R (Z.of_nat i) * hdx h)%Qc; v])
             (take (Z.to_nat (to_int32 (nDimX h))) field)).
Proof. apply display_1D_r_rows. Qed.

(** ** [display_2D] and [display_1D]: when their reads stay inside the
    field *)

Section Display2D.
Context {A : Type} (val : A -> Qc) (last : Z -> A -> Qc) (field : list A) (h : header).
Hypotheses (HX : (0 < nDimX h)%Z) (HY : (0 < nDimY h)%Z).
Hypothesis Hlen : length field = Z.to_nat (nDimX h * nDimY h).
Hypothesis Hint : (nDimX h * nDimY h <= int32_max)%Z.

Lemma display_2D_safe opt i0 j0 :
  i0 <> nDimX h -> j0 <> nDimY h -> is_Some (display_2D_with val last field h opt i0 j0).
Proof.
  intros Hi Hj. unfold display_2D_with. cbv zeta.
  destruct (dims_to_int32 _ _ 1 HX HY ltac:(lia) ltac:(lia)) as (-> & -> & _).
  change I_CONST with (2 ^ 0)%Z. change J_CONST with (2 ^ 1)%Z. rewrite !has_pow2 by lia.
  set (o := guard_idx (guard_idx opt (2 ^ 0) i0 (nDimX h)) (2 ^ 1) j0 (nDimY h)).
  assert (Hl : Z.of_nat (length field) = (nDimX h * nDimY h)%Z)
    by (rewrite Hlen; apply Z2Nat.id; nia).
  destruct (Z.testbit o 0) eqn:B1.
  { unfold o in B1. rewrite guard_other in B1 by lia. apply guard_bit in B1; [|lia].
    loop_safe. apply (get2_is_Some _ (nDimX h)); lia. }
  destruct (Z.testbit o 1) eqn:B2.
  { apply guard_bit in B2; [|lia]. loop_safe. apply (get2_is_Some _ (nDimX h)); lia. }
  loop_safe. apply (get2_is_Some _ (nDimX h)); lia.
Qed.

(** [C18] [display_2D]'s guard [i0 > dimX] (gpo3.cpp lines 315 and
    378) lets [i0 = dimX] through: the line along y of [-i dimX] reads
    past the end of the field. *)
Theorem display_2D_i0_dimX_oob opt j0 :
  Z.testbit opt 0 = true -> display_2D_with val last field h opt (nDimX h) j0 = None.
Proof.
  intros B0. unfold display_2D_with. cbv zeta.
  destruct (dims_to_int32 _ _ 1 HX HY ltac:(lia) ltac:(lia)) as (-> & -> & _).
  rewrite (guard_in _ I_CONST) by lia.
  change I_CONST with (2 ^ 0)%Z. change J_CONST with (2 ^ 1)%Z.
  rewrite has_pow2, guard_other, B0 by lia.
  apply (acc_loop_none _ _ _ _ _ 0); [lia|]. intros x.
  rewrite get2_oob; [done|]. rewrite Hlen, Z2Nat.id by nia. nia.
Qed.

(** [C19] Its guard [j0 > dimY] (lines 316 and 379) lets [j0 = dimY]
    through as well: the line along x of [-j dimY] without [-i] reads
    past the end of the field at its last point. *)
Theorem display_2D_j0_dimY_oob opt i0 :
  Z.testbit opt 0 = false -> Z.testbit opt 1 = true ->
  display_2D_with val last field h opt i0 (nDimY h) = None.
Proof.
  intros B0 B1. unfold display_2D_with. cbv zeta.
  destruct (dims_to_int32 _ _ 1 HX HY ltac:(lia) ltac:(lia)) as (-> & -> & _).
  rewrite (guard_in _ J_CONST) by lia.
  change I_CONST with (2 ^ 0)%Z. change J_CONST with (2 ^ 1)%Z.
  rewrite !has_pow2, guard_clear, guard_other, B1 by (done || lia).
  apply (acc_loop_none _ _ _ _ _ (nDimX h - 1)); [lia|]. intros x.
  rewrite get2_oob; [done|]. rewrite Hlen, Z2Nat.id by nia. nia.
Qed.
End Display2D.

(** ** Closed forms of the printed slices

    A loop over valid indices prints, at its [m]-th iteration, the
    coordinate [v + m d] (accumulated from [v - d]) and the value at the
    row-major offset of [m], read as [field !!! offset]. *)

Lemma acc_loop_some cnt n v d body (f : Z -> Qc -> list row) :
  (forall m x, (n <= m < n + Z.of_nat cnt)%Z -> body m x = Some (f m x)) ->
  acc_loop cnt n v d body =
  Some (concat (map (fun m => f (n + Z.of_nat m)%Z (v + Z2R (Z.of_nat m + 1) * d)%Qc) (seq 0 cnt))).
Proof. intros Hb. rewrite (acc_loop_ext _ _ _ _ _ (fun m x => Some (f m x))) by done. apply acc_loop_closed. Qed.

Lemma acc_coord v d m : (v - d + Z2R (Z.of_nat m + 1) * d = v + Z2R (Z.of_nat m) * d)%Qc.
Proof. unfold Z2R. rewrite Z2Qc_inj_add, Z2Qc_inj_1. ring. Qed.

(** A loop printing one row [r x m] per iteration. *)
Lemma acc_loop_line cnt v d body (r : Qc -> Z -> row) :
  (forall m x, (0 <= m < Z.of_nat cnt)%Z -> body m x = Some [r x m]) ->
  acc_loop cnt 0 (v - d)%Qc d body =
  Some (map (fun m : nat => r (v + Z2R (Z.of_nat m) * d)%Qc (Z.of_nat m)) (seq 0 cnt)).
Proof.
  intros Hb. rewrite (acc_loop_some _ _ _ _ _ (fun m x => [r x m])) by (intros; apply Hb; lia).
  rewrite concat_map_singleton. f_equal. apply map_ext. intros m. by rewrite acc_coord.
Qed.

(** A guard on a bit that is already clear changes nothing. *)
Lemma guard_keep o n v lim :
  (0 <= n)%Z -> Z.testbit o n = false -> guard_idx o (2 ^ n) v lim = o.
Proof.
  intros Hn Ho. unfold guard_idx. destruct (_ || _); [|done].
  apply Z.bits_inj'. intros m Hm. rewrite Z.land_spec, Z.lnot_spec, Z.pow2_bits_eqb by done.
  destruct (Z.eqb_spec n m) as [<-|]; [by rewrite Ho | apply andb_true_r].
Qed.

Lemma land_pair_false o a b :
  (0 <= a)%Z -> (0 <= b)%Z -> Z.testbit o a = false ->
  (Z.land o (Z.lor (2 ^ a) (2 ^ b)) =? Z.lor (2 ^ a) (2 ^ b))%Z = false.
Proof.
  intros Ha Hb Ea. destruct (Z.eqb_spec (Z.land o (Z.lor (2 ^ a) (2 ^ b))) (Z.lor (2 ^ a) (2 ^ b)))
    as [E|]; [exfalso|done].
  apply (f_equal (fun z => Z.testbit z a)) in E.
  rewrite Z.land_spec, Z.lor_spec, Z.pow2_bits_true, Ea in E by done. discriminate E.
Qed.

Lemma get3_total {A B} `{!Inhabited A} (g : A -> B) (field : list A) nx ny nz i j k :
  (0 <= i < nx -> 0 <= j < ny -> 0 <= k < nz -> nx * ny * nz <= int32_max ->
   Z.of_nat (length field) = nx * ny * nz ->
   (ijk ← idx3_32 ny nz i j k; g <$> read field ijk) =
   Some (g (field !!! Z.to_nat (k + nz * (j + ny * i)))))%Z.
Proof.
  intros Hi Hj Hk Hn Hl. pose proof (idx3 nx ny nz i j k Hi Hj Hk).
  rewrite (idx3_32_ok nx) by done. cbn. unfold read.
  rewrite (proj2 (Z.leb_le 0 _)), (list_lookup_lookup_total_lt field) by lia. done.
Qed.

Lemma get2_total {A} `{!Inhabited A} (field : list A) nx ny i j :
  (0 <= i < nx -> 0 <= j < ny -> nx * ny <= int32_max -> Z.of_nat (length field) = nx * ny ->
   (ij ← idx2_32 ny i j; read field ij) = Some (field !!! Z.to_nat (j + ny * i)))%Z.
Proof.
  intros Hi Hj Hn Hl. pose proof (idx2 nx ny i j Hi Hj).
  rewrite (idx2_32_ok nx) by done. cbn. unfold read.
  rewrite (proj2 (Z.leb_le 0 _)), (list_lookup_lookup_total_lt field) by lia. done.
Qed.

Section ClosedForms.
Context {A : Type} `{!Inhabited A} (val : A -> Qc) (h : header).
Hypotheses (HX : (0 < nDimX h)%Z) (HY : (0 < nDimY h)%Z) (HZ : (0 < nDimZ h)%Z).

(** [C20] With [-i i0 -j j0] valid, [display_3D] prints the line along
    z: one row [(zMin + k dz, field[k + dimZ (j0 + dimY i0)])] for each
    [k < dimZ], in order. *)
Theorem display_3D_line_z field opt i0 j0 k0 :
  length field = Z.to_nat (nDimX h * nDimY h * nDimZ h) ->
  (nDimX h * nDimY h * nDimZ h <= int32_max)%Z ->
  Z.testbit opt 0 = true -> Z.testbit opt 1 = true ->
  (0 <= i0 < nDimX h)%Z -> (0 <= j0 < nDimY h)%Z ->
  display_3D_with val field h opt i0 j0 k0 =
  Some (map (fun k : nat => Row [(zMin h + Z2R (Z.of_nat k) * hdz h)%Qc;
                                 val (field !!! Z.to_nat (Z.of_nat k + nDimZ h * (j0 + nDimY h * i0)))])
            (seq 0 (Z.to_nat (nDimZ h)))).
Proof.
  intros Hlen Hint B0 B1 Hi Hj. unfold display_3D_with. cbv zeta.
  destruct (dims_to_int32 _ _ _ HX HY HZ Hint) as (-> & -> & ->).
  rewrite (guard_in _ I_CONST) by lia. rewrite (guard_in _ J_CONST) by lia.
  change K_CONST with (2 ^ 2)%Z. change I_CONST with (2 ^ 0)%Z. change J_CONST with (2 ^ 1)%Z.
  rewrite land_pair_2; [|lia|lia| by rewrite guard_other by lia | by rewrite guard_other by lia].
  rewrite (acc_loop_line _ _ _ _
    (fun z k => Row [z; val (field !!! Z.to_nat (k + nDimZ h * (j0 + nDimY h * i0)))])); [done|].
  intros k z Hk. cbv beta. rewrite (get3_total _ _ (nDimX h)); [done | lia.. |].
  rewrite Hlen, Z2Nat.id by nia. done.
Qed.

(** [C22] With [-i i0] valid, [display_2D] prints the line along y:
    one row [(yMin + j dy, field[j + dimY i0])] for each [j < dimY]. *)
Theorem display_2D_line_y (last : Z -> A -> Qc) field opt i0 j0 :
  length field = Z.to_nat (nDimX h * nDimY h) -> (nDimX h * nDimY h <= int32_max)%Z ->
  Z.testbit opt 0 = true -> (0 <= i0 < nDimX h)%Z ->
  display_2D_with val last field h opt i0 j0 =
  Some (map (fun j : nat => Row [(yMin h + Z2R (Z.of_nat j) * hdy h)%Qc;
                                 val (field !!! Z.to_nat (Z.of_nat j + nDimY h * i0))])
            (seq 0 (Z.to_nat (nDimY h)))).
Proof.
  intros Hlen Hint B0 Hi. unfold display_2D_with. cbv zeta.
  destruct (dims_to_int32 _ _ 1 HX HY ltac:(lia) ltac:(lia)) as (-> & -> & _).
  rewrite (guard_in _ I_CONST) by lia.
  change I_CONST with (2 ^ 0)%Z. change J_CONST with (2 ^ 1)%Z.
  rewrite has_pow2, guard_other, B0 by lia.
  rewrite (acc_loop_line _ _ _ _ (fun y j => Row [y; val (field !!! Z.to_nat (j + nDimY h * i0))]));
    [done|].
  intros j y Hj. cbv beta. rewrite (get2_total _ (nDimX h)); [done | lia.. |].
  rewrite Hlen, Z2Nat.id by nia. done.
Qed.

(** [C24] Without [-i] and [-j], [display_2D] prints the whole plane
    row by row: for each [i < dimX] the rows
    [(xMin + i dx, yMin + j dy, last opt field[j + dimY i])] for
    [j < dimY], then a blank line. *)
Theorem display_2D_plane (last : Z -> A -> Qc) field opt i0 j0 :
  length field = Z.to_nat (nDimX h * nDimY h) -> (nDimX h * nDimY h <= int32_max)%Z ->
  Z.testbit opt 0 = false -> Z.testbit opt 1 = false ->
  display_2D_with val last field h opt i0 j0 =
  Some (concat (map (fun i : nat =>
     map (fun j : nat => Row [(xMin h + Z2R (Z.of_nat i) * hdx h)%Qc;
                              (yMin h + Z2R (Z.of_nat j) * hdy h)%Qc;
                              last opt (field !!! Z.to_nat (Z.of_nat j + nDimY h * Z.of_nat i))])
         (seq 0 (Z.to_nat (nDimY h))) ++ [Blank])
     (seq 0 (Z.to_nat (nDimX h))))).
Proof.
  intros Hlen Hint B0 B1. unfold display_2D_with. cbv zeta.
  destruct (dims_to_int32 _ _ 1 HX HY ltac:(lia) ltac:(lia)) as (-> & -> & _).
  change I_CONST with (2 ^ 0)%Z. change J_CONST with (2 ^ 1)%Z.
  rewrite (guard_keep opt 0), (guard_keep opt 1) by done.
  rewrite !has_pow2, B0, B1 by lia.
  rewrite (acc_loop_some _ _ _ _ _ (fun i x =>
    map (fun j : nat => Row [x; (yMin h + Z2R (Z.of_nat j) * hdy h)%Qc;
                             last opt (field !!! Z.to_nat (Z.of_nat j + nDimY h * i))])
        (seq 0 (Z.to_nat (nDimY h))) ++ [Blank])).
  { do 2 f_equal. apply map_ext. intros i. by rewrite acc_coord, Z.add_0_l. }
  intros i x Hi. cbv beta.
  rewrite (acc_loop_line _ _ _ _ (fun y j => Row [x; y; last opt (field !!! Z.to_nat (j + nDimY h * i))]));
    [done|].
  intros j y Hj. cbv beta. rewrite (get2_total _ (nDimX h)); [done | lia.. |].
  rewrite Hlen, Z2Nat.id by nia. done.
Qed.
(** [C23] With [-j j0] valid and no [-i], [display_2D] prints the line
    along x: one row [(xMin + i dx, field[j0 + dimY i])] for each
    [i < dimX]. *)
Theorem display_2D_line_x (last : Z -> A -> Qc) field opt i0 j0 :
  length field = Z.to_nat (nDimX h * nDimY h) -> (nDimX h * nDimY h <= int32_max)%Z ->
  Z.testbit opt 0 = false -> Z.testbit opt 1 = true -> (0 <= j0 < nDimY h)%Z ->
  display_2D_with val last field h opt i0 j0 =
  Some (map (fun i : nat => Row [(xMin h + Z2R (Z.of_nat i) * hdx h)%Qc;
                                 val (field !!! Z.to_nat (j0 + nDimY h * Z.of_nat i))])
            (seq 0 (Z.to_nat (nDimX h)))).
Proof.
  intros Hlen Hint B0 B1 Hj. unfold display_2D_with. cbv zeta.
  destruct (dims_to_int32 _ _ 1 HX HY ltac:(lia) ltac:(lia)) as (-> & -> & _).
  change I_CONST with (2 ^ 0)%Z. change J_CONST with (2 ^ 1)%Z.
  rewrite (guard_keep opt 0), (guard_in opt) by (done || lia).
  rewrite !has_pow2, B0, B1 by lia.
  rewrite (acc_loop_line _ _ _ _ (fun x i => Row [x; val (field !!! Z.to_nat (j0 + nDimY h * i))]));
    [done|].
  intros i x Hi. cbv beta. rewrite (get2_total _ (nDimX h)); [done | lia.. |].
  rewrite Hlen, Z2Nat.id by nia. done.
Qed.

(** [C21] With only [-k k0] given, [k0] a plane of the field that the
    guard against [dimY] lets through, [display_3D] prints that plane
    row by row: for each [i < dimX] the rows
    [(xMin + i dx, yMin + j dy, field[k0 + dimZ (j + dimY i)])] for
    [j < dimY], then a blank line. *)
Theorem display_3D_plane_k field opt i0 j0 k0 :
  length field = Z.to_nat (nDimX h * nDimY h * nDimZ h) ->
  (nDimX h * nDimY h * nDimZ h <= int32_max)%Z ->
  Z.testbit opt 0 = false -> Z.testbit opt 1 = false -> Z.testbit opt 2 = true ->
  (0 <= k0 < nDimZ h)%Z -> (k0 <= nDimY h)%Z ->
  display_3D_with val field h opt i0 j0 k0 =
  Some (concat (map (fun i : nat =>
     map (fun j : nat => Row [(xMin h + Z2R (Z.of_nat i) * hdx h)%Qc;
                              (yMin h + Z2R (Z.of_nat j) * hdy h)%Qc;
                              val (field !!! Z.to_nat (k0 + nDimZ h * (Z.of_nat j + nDimY h * Z.of_nat i)))])
         (seq 0 (Z.to_nat (nDimY h))) ++ [Blank])
     (seq 0 (Z.to_nat (nDimX h))))).
Proof.
  intros Hlen Hint B0 B1 B2 Hk Hky. unfold display_3D_with. cbv zeta.
  destruct (dims_to_int32 _ _ _ HX HY HZ Hint) as (-> & -> & ->).
  change I_CONST with (2 ^ 0)%Z. change J_CONST with (2 ^ 1)%Z. change K_CONST with (2 ^ 2)%Z.
  rewrite (guard_keep opt 0), (guard_keep opt 1), (guard_in opt) by (done || lia).
  rewrite !land_pair_false by (done || lia). rewrite !has_pow2, B2 by lia.
  rewrite (acc_loop_some _ _ _ _ _ (fun i x =>
    map (fun j : nat => Row [x; (yMin h + Z2R (Z.of_nat j) * hdy h)%Qc;
                             val (field !!! Z.to_nat (k0 + nDimZ h * (Z.of_nat j + nDimY h * i)))])
        (seq 0 (Z.to_nat (nDimY h))) ++ [Blank])).
  { do 2 f_equal. apply map_ext. intros i. by rewrite acc_coord, Z.add_0_l. }
  intros i x Hi. cbv beta.
  rewrite (acc_loop_line _ _ _ _
    (fun y j => Row [x; y; val (field !!! Z.to_nat (k0 + nDimZ h * (j + nDimY h * i)))])); [done|].
  intros j y Hj. cbv beta. rewrite (get3_total _ _ (nDimX h)); [done | lia.. |].
  rewrite Hlen, Z2Nat.id by nia. done.
Qed.
End ClosedForms.

(** [C25] The 1-D complex printer prints, for each [i < dimX], the row
    [(xMin + i dx, |c|^2, re c, im c, atan2(im c, re c))] of
    [c = field[i]]. *)
Theorem display_1D_c_closed atan2 field h :
  (Z.to_nat (to_int32 (nDimX h)) <= length field)%nat ->
  display_1D_c atan2 field h =
  Some (map (fun i : nat => let c := field !!! i in
               Row [(xMin h + Z2R (Z.of_nat i) * hdx h)%Qc; (re c * re c + im c * im c)%Qc;
                    re c; im c; atan2 (im c) (re c)])
            (seq 0 (Z.to_nat (to_int32 (nDimX h))))).
Proof.
  intros Hl. unfold display_1D_c.
  rewrite (acc_loop_line _ _ _ _ (fun x m => let c := field !!! Z.to_nat m in
    Row [x; (re c * re c + im c * im c)%Qc; re c; im c; atan2 (im c) (re c)])).
  - f_equal. apply map_ext. intros i. by rewrite Nat2Z.id.
  - intros m x Hm. unfold read. rewrite (proj2 (Z.leb_le 0 m)), (list_lookup_lookup_total_lt field)
      by lia. done.
Qed.

Lemma display_1D_c_safe atan2 field h :
  (Z.to_nat (to_int32 (nDimX h)) <= length field)%nat -> is_Some (display_1D_c atan2 field h).
Proof. intros Hl. loop_safe. lia. Qed.

Lemma display_1D_r_safe field h :
  (Z.to_nat (to_int32 (nDimX h)) <= length field)%nat -> is_Some (display_1D_r field h).
Proof. intros Hl. loop_safe. lia. Qed.

(** ** What the printers print *)


Lemma acc_loop_length cnt n v d body rows k :
  (forall m x rs, body m x = Some rs -> length rs = k) ->
  acc_loop cnt n v d body = Some rows -> length rows = cnt * k.
Proof.
  revert n v rows. induction cnt as [|c IH]; intros n v rows Hb E; cbn in E; [by injection E as <-|].
  apply bind_Some in E as (r & Er & E). apply bind_Some in E as (rs & Ers & E).
  injection E as <-. rewrite length_app, (Hb _ _ _ Er), (IH _ _ _ Hb Ers). lia.
Qed.


(** A loop body that prints one row per iteration. *)
Lemma body_one_row {X} (m : option X) (f : X -> row) rs :
  (x ← m; Some [f x]) = Some rs -> length rs = 1%nat.
Proof. intros E. apply bind_Some in E as (? & _ & E). by injection E as <-. Qed.

(** A plane's row: [cnt] one-row iterations and the closing newline. *)
Lemma body_plane_row cnt n v d body rs :
  (forall m x rs, body m x = Some rs -> length rs = 1%nat) ->
  (r ← acc_loop cnt n v d body; Some (r ++ [Blank])) = Some rs -> length rs = (cnt + 1)%nat.
Proof.
  intros Hb E. apply bind_Some in E as (r & Er & E). injection E as <-.
  rewrite length_app, (acc_loop_length _ _ _ _ _ _ _ Hb Er). cbn. lia.
Qed.

(** [C30] The printers' loops run exactly their bounds, the [int]
    copies [dimX = nDimX] and [dimY = nDimY] of the header's [long long]
    dimensions: [display_1D] prints [dimX] rows, and [display_2D] [dimY]
    rows for [-i], [dimX] rows for [-j], and [dimY] rows and a newline
    for each of the [dimX] values of [x] otherwise. *)
Theorem printers_loop_counts {A} (val : A -> Qc) (last : Z -> A -> Qc) (field : list A)
    atan2 fc fr h opt i0 j0 rows :
  let dimX := to_int32 (nDimX h) in let dimY := to_int32 (nDimY h) in
  (display_1D_c atan2 fc h = Some rows -> length rows = Z.to_nat dimX) /\
  (display_1D_r fr h = Some rows -> length rows = Z.to_nat dimX) /\
  (display_2D_with val last field h opt i0 j0 = Some rows ->
   let o := guard_idx (guard_idx opt I_CONST i0 dimX) J_CONST j0 dimY in
   length rows = if has o I_CONST then Z.to_nat dimY
                 else if has o J_CONST then Z.to_nat dimX
                 else (Z.to_nat dimX * (Z.to_nat dimY + 1))%nat).
Proof.
  unfold display_1D_c, display_1D_r, display_2D_with. cbv zeta.
  split; [|split]; intros E.
  - rewrite (acc_loop_length _ _ _ _ _ _ 1 (fun m x => body_one_row _ _) E). lia.
  - rewrite (acc_loop_length _ _ _ _ _ _ 1 (fun m x => body_one_row _ _) E). lia.
  - destruct (has _ I_CONST); [|destruct (has _ J_CONST)].
    + rewrite (acc_loop_length _ _ _ _ _ _ 1 (fun m x => body_one_row _ _) E). lia.
    + rewrite (acc_loop_length _ _ _ _ _ _ 1 (fun m x => body_one_row _ _) E). lia.
    + apply (acc_loop_length _ _ _ _ _ _ _ (fun m x rs => body_plane_row _ _ _ _ _ _
               (fun m' y => body_one_row _ _)) E).
Qed.

(** ** Witnesses on concrete headers

    [hdr nx ny nz] is a 3-D real header with unit spacings and origin 0,
    [ramp n] the field [0, 1, ..., n - 1]. *)

Definition hdr (nx ny nz : Z) : header :=
  {| nDims := 3; nDimX := nx; nDimY := ny; nDimZ := nz; nDatatyp := 0; bAtom := 0; bComplex := 0;
     ht := 0; hdt := 0; xMin := 0; xMax := 0; yMin := 0; yMax := 0; zMin := 0; zMax := 0;
     hdx := 1; hdy := 1; hdz := 1; hdkx := 1; hdky := 1; hdkz := 1 |}.
Definition ramp (n : Z) : list Qc := map Z2R (seqZ 0 n).

Lemma display_3D_i0_dimX_oob_witness :
  display_3D_with (fun v => v) (ramp 24) (hdr 2 3 4) 3 (nDimX (hdr 2 3 4)) 1 0 = None.
Proof. apply (display_3D_i0_dimX_oob (fun v => v) (ramp 24) (hdr 2 3 4)); by_eval. Defined.

Lemma display_3D_k0_guard_dimY_witness :
  display_3D_with (fun v => v) (ramp 16) (hdr 2 2 4) K_CONST (-1) (-1) 3 = Some [].
Proof. apply (display_3D_k0_guard_dimY (fun v => v) (ramp 16) (hdr 2 2 4)); by_eval. Defined.

Lemma display_3D_k0_oob_witness :
  display_3D_with (fun v => v) (ramp 16) (hdr 2 4 2) K_CONST (-1) (-1) 3 = None.
Proof. apply (display_3D_k0_oob (fun v => v) (ramp 16) (hdr 2 4 2)); by_eval. Defined.

Lemma display_1D_r_closed_witness :
  display_1D_r (ramp 5) (hdr 3 1 1) =
  Some (imap (fun i v => Row [(xMin (hdr 3 1 1) + Z2R (Z.of_nat i) * hdx (hdr 3 1 1))%Qc; v])
             (take (Z.to_nat (nDimX (hdr 3 1 1))) (ramp 5))).
Proof. apply display_1D_r_closed. by_eval. Defined.

Lemma display_2D_i0_dimX_oob_witness :
  display_2D_with (fun v => v) (fun _ v => v) (ramp 6) (hdr 2 3 1) I_CONST (nDimX (hdr 2 3 1)) (-1)
  = None.
Proof. apply (display_2D_i0_dimX_oob (fun v => v) (fun _ v => v) (ramp 6) (hdr 2 3 1)); by_eval. Defined.

Lemma display_2D_j0_dimY_oob_witness :
  display_2D_with (fun v => v) (fun _ v => v) (ramp 6) (hdr 2 3 1) J_CONST (-1) (nDimY (hdr 2 3 1))
  = None.
Proof. apply (display_2D_j0_dimY_oob (fun v => v) (fun _ v => v) (ramp 6) (hdr 2 3 1)); by_eval. Defined.

(** A [2048^3] grid: [2^33] points. *)
Lemma display_3D_int_overflow_witness :
  display_3D_with (fun v : Qc => v) [] (hdr 2048 2048 2048) 3
    (nDimX (hdr 2048 2048 2048) - 1) (nDimY (hdr 2048 2048 2048) - 1) 0 = None.
Proof. apply (display_3D_int_overflow (fun v : Qc => v) [] (hdr 2048 2048 2048)); by_eval. Defined.

Lemma display_3D_line_z_witness :
  display_3D_with (fun v => v) (ramp 24) (hdr 2 3 4) 3 1 2 0 =
  Some (map (fun k : nat => Row [(zMin (hdr 2 3 4) + Z2R (Z.of_nat k) * hdz (hdr 2 3 4))%Qc;
              ramp 24 !!! Z.to_nat (Z.of_nat k + nDimZ (hdr 2 3 4) * (2 + nDimY (hdr 2 3 4) * 1))])
            (seq 0 (Z.to_nat (nDimZ (hdr 2 3 4))))).
Proof. apply (display_3D_line_z (fun v => v) (hdr 2 3 4)); by_eval. Defined.

Lemma display_2D_line_y_witness :
  display_2D_with (fun v => v) (fun _ v => v) (ramp 6) (hdr 2 3 1) I_CONST 1 (-1) =
  Some (map (fun j : nat => Row [(yMin (hdr 2 3 1) + Z2R (Z.of_nat j) * hdy (hdr 2 3 1))%Qc;
              ramp 6 !!! Z.to_nat (Z.of_nat j + nDimY (hdr 2 3 1) * 1)])
            (seq 0 (Z.to_nat (nDimY (hdr 2 3 1))))).
Proof. apply (display_2D_line_y (fun v => v) (hdr 2 3 1)); by_eval. Defined.

(** The full picture of [display_2D_r] under [-bw]: the sign of each value. *)
Lemma display_2D_plane_witness :
  display_2D_with (fun v => v) (fun o v => if has o BW then Qc_of_Z (Z.sgn (Qnum (this v))) else v)
    (map Z2R [-2; 0; 3; 1; -1; 0]%Z) (hdr 2 3 1) BW (-1) (-1) =
  Some (concat (map (fun i : nat =>
     map (fun j : nat => Row [(xMin (hdr 2 3 1) + Z2R (Z.of_nat i) * hdx (hdr 2 3 1))%Qc;
                              (yMin (hdr 2 3 1) + Z2R (Z.of_nat j) * hdy (hdr 2 3 1))%Qc;
                              (fun o v => if has o BW then Qc_of_Z (Z.sgn (Qnum (this v))) else v) BW
                                (map Z2R [-2; 0; 3; 1; -1; 0]%Z !!!
                                   Z.to_nat (Z.of_nat j + nDimY (hdr 2 3 1) * Z.of_nat i))])
         (seq 0 (Z.to_nat (nDimY (hdr 2 3 1)))) ++ [Blank])
     (seq 0 (Z.to_nat (nDimX (hdr 2 3 1)))))).
Proof. apply (display_2D_plane (fun v => v) (hdr 2 3 1)); by_eval. Defined.

Lemma display_2D_line_x_witness :
  display_2D_with (fun v => v) (fun _ v => v) (ramp 6) (hdr 2 3 1) J_CONST (-1) 2 =
  Some (map (fun i : nat => Row [(xMin (hdr 2 3 1) + Z2R (Z.of_nat i) * hdx (hdr 2 3 1))%Qc;
              ramp 6 !!! Z.to_nat (2 + nDimY (hdr 2 3 1) * Z.of_nat i)])
            (seq 0 (Z.to_nat (nDimX (hdr 2 3 1))))).
Proof. apply (display_2D_line_x (fun v => v) (hdr 2 3 1)); by_eval. Defined.

Lemma display_3D_plane_k_witness :
  display_3D_with (fun v => v) (ramp 24) (hdr 2 3 4) K_CONST (-1) (-1) 2 =
  Some (concat (map (fun i : nat =>
     map (fun j : nat => Row [(xMin (hdr 2 3 4) + Z2R (Z.of_nat i) * hdx (hdr 2 3 4))%Qc;
                              (yMin (hdr 2 3 4) + Z2R (Z.of_nat j) * hdy (hdr 2 3 4))%Qc;
                              ramp 24 !!! Z.to_nat (2 + nDimZ (hdr 2 3 4) *
                                                      (Z.of_nat j + nDimY (hdr 2 3 4) * Z.of_nat i))])
         (seq 0 (Z.to_nat (nDimY (hdr 2 3 4)))) ++ [Blank])
     (seq 0 (Z.to_nat (nDimX (hdr 2 3 4)))))).
Proof. apply (display_3D_plane_k (fun v => v) (hdr 2 3 4)); by_eval. Defined.

(** Two complex samples [1 + 2i] and [3 - i] on a 2-point line. *)
Definition two_c : list cplx := [mkC 1 (Z2R 2); mkC (Z2R 3) (Z2R (-1))].

Lemma display_1D_c_closed_witness :
  display_1D_c (fun _ _ => 0%Qc) two_c (hdr 2 1 1) =
  Some (map (fun i : nat => let c := two_c !!! i in
               Row [(xMin (hdr 2 1 1) + Z2R (Z.of_nat i) * hdx (hdr 2 1 1))%Qc;
                    (re c * re c + im c * im c)%Qc; re c; im c; 0%Qc])
            (seq 0 (Z.to_nat (to_int32 (nDimX (hdr 2 1 1)))))).
Proof. apply (display_1D_c_closed (fun _ _ => 0%Qc) two_c (hdr 2 1 1)). by_eval. Defined.
