(* ===== verification/Gpo3Main.v ===== *)
(** * The gpo3 viewer's [main] (src/source/vis/src/gpo3.cpp, lines 476-652)

    [main] reads the command line into an option word and the fixed
    indices, opens the named file, reads its [generic_header] and the
    doubles after it, and hands the field to the printer [Display] models
    for the header's [nDims] and [bComplex]. *)

From S2P Require Import Prelude Display.
From Stdlib Require String Ascii.

(** ** [main] (lines 476-652) *)

(** The parsed command line: AnyOption's flags ([-h]/[--help] is one
    flag) and option values, the values already converted by [atof] and
    truncated to [int]; [arg_file] is the first non-option argument. *)
Record cmdline := mkCmd {
  arg_help : bool; arg_i : option Z; arg_j : option Z; arg_k : option Z;
  arg_re : bool; arg_im : bool; arg_bw : bool; arg_ph : bool;
  arg_file : option String.string
}.

(** Lines 514-533: the option bits and the fixed indices. *)
Definition gpo3_options (c : cmdline) : Z * Z * Z * Z :=
  let '(i0, oi) := match arg_i c with Some v => (v, I_CONST) | None => ((-1)%Z, 0%Z) end in
  let '(j0, oj) := match arg_j c with Some v => (v, J_CONST) | None => ((-1)%Z, 0%Z) end in
  let '(k0, ok) := match arg_k c with Some v => (v, K_CONST) | None => ((-1)%Z, 0%Z) end in
  let opts := Z.lor (Z.lor (Z.lor oi oj) ok)
               (Z.lor (Z.lor (if arg_re c then RT else 0) (if arg_im c then IT else 0))
                      (Z.lor (if arg_bw c then BW else 0) (if arg_ph c then PH else 0))) in
  (opts, i0, j0, k0).

Module Gpo3_text.
Import String.
Local Open Scope string_scope.
Local Notation "a +++ b" := (String.append a b) (at level 60, right associativity).
Definition tab : String.string := String.String (Ascii.ascii_of_nat 9) String.EmptyString.

(** Lines 488-499: the usage text, one line per [addUsage]. *)
Definition usage_lines : list String.string :=
  [""; "Usage: gpo2 [options] filename"; "";
   " -h --help" +++ tab +++ "Prints this help ";
   " -i val  " +++ tab +++ "Fix x coord. index i at val";
   " -j val  " +++ tab +++ "Fix y coord. index j at val";
   " -k val  " +++ tab +++ "Fix z coord. index k at val";
   " -re" +++ tab +++ tab +++ "prints out the real part of a complex wavefunction";
   " -im" +++ tab +++ tab +++ "prints out the imag part of a complex wavefunction";
   " -bw" +++ tab +++ tab; " -ph" +++ tab +++ tab; ""].

End Gpo3_text.
Import Gpo3_text.

(** [opt->printUsage()]: the usage lines in order. *)
Definition print_usage : list row := map Text usage_lines.

(** Lines 512 and 536-537: the usage is printed under [-h], and again
    when no file name is given. *)
Definition usage_rows (c : cmdline) : list row :=
  (if arg_help c then print_usage else []) ++
  (match arg_file c with Some _ => [] | None => print_usage end).

Module Gpo3_dump.
Import String.
Local Open Scope string_scope.
Local Notation "a +++ b" := (String.append a b) (at level 60, right associativity).
(** Lines 553-577: the name of the file, the header and the fixed
    indices. *)
Definition header_dump (fname : String.string) (h : header) (i0 j0 k0 : Z) : list row :=
  [Text ("### " +++ fname);
   IntLine "# nDims    == " (nDims h); IntLine "# nDimX    == " (nDimX h);
   IntLine "# nDimY    == " (nDimY h); IntLine "# nDimZ    == " (nDimZ h);
   IntLine "# nDatatyp == " (nDatatyp h); IntLine "# bAtom    == " (bAtom h);
   IntLine "# bComplex == " (bComplex h);
   RealLine "# t        == " (ht h); RealLine "# dt       == " (hdt h);
   RealLine "# xMin     == " (xMin h); RealLine "# xMax     == " (xMax h);
   RealLine "# yMin     == " (yMin h); RealLine "# yMax     == " (yMax h);
   RealLine "# zMin     == " (zMin h); RealLine "# zMax     == " (zMax h);
   RealLine "# dx       == " (hdx h); RealLine "# dy       == " (hdy h);
   RealLine "# dz       == " (hdz h); RealLine "# dkx      == " (hdkx h);
   RealLine "# dky      == " (hdky h); RealLine "# dkz      == " (hdkz h);
   IntLine "# i0       == " i0; IntLine "# j0       == " j0; IntLine "# k0       == " k0].
End Gpo3_dump.
Import Gpo3_dump.

(** [fftw_complex] values read from the file: consecutive (re, im) pairs. *)
Fixpoint pairs (l : list Qc) : list cplx :=
  match l with a :: b :: t => mkC a b :: pairs t | _ => [] end.

Section Main_defs.
Variables (atan2 : Qc -> Qc -> Qc) (sign : Qc -> Qc).

(** Lines 579-652: the field read after the header, handed to the
    printer for [nDims] and [bComplex]; no printer for other values. *)
Definition gpo3_slice (h : header) (payload : list Qc) (opts i0 j0 k0 : Z) : option (list row) :=
  let nX := Z.to_nat (nDimX h) in
  let nXY := Z.to_nat (nDimX h * nDimY h) in
  let nXYZ := Z.to_nat (nDimX h * nDimY h * nDimZ h) in
  match nDims h, bComplex h with
  | 1%Z, 1%Z => display_1D_c atan2 (take nX (pairs payload)) h
  | 1%Z, 0%Z => display_1D_r (take nX payload) h
  | 2%Z, 1%Z => display_2D_c atan2 (take nXY (pairs payload)) h opts i0 j0
  | 2%Z, 0%Z => display_2D_r sign (take nXY payload) h opts i0 j0
  | 3%Z, 1%Z => display_3D_c atan2 (take nXYZ (pairs payload)) h opts i0 j0 k0
  | 3%Z, 0%Z => display_3D_r (take nXYZ payload) h opts i0 j0 k0
  | _, _ => Some []
  end.

(** The process ends with [EXIT_FAILURE] after printing [out], or
    normally after printing [rows]. *)
Inductive gpo3_result := ExitFailure (out : list row) | Output (rows : list row).

(** The file system: the header and the doubles after it, or [None]
    when the file cannot be opened; the empty name stands for no name. *)
Definition gpo3_main (c : cmdline) (fs : String.string -> option (header * list Qc))
    : option gpo3_result :=
  let '(opts, i0, j0, k0) := gpo3_options c in
  let fname := default String.EmptyString (arg_file c) in
  match fs fname with
  | None => Some (ExitFailure (usage_rows c))
  | Some (h, payload) =>
      rows ← gpo3_slice h payload opts i0 j0 k0;
      Some (Output (usage_rows c ++ header_dump fname h i0 j0 k0 ++ rows))
  end.
End Main_defs.

(** [pairs] reads two doubles per complex value. *)
Lemma length_pairs l : length (pairs l) = Nat.div2 (length l).
Proof.
  remember (length l) as n eqn:En. revert l En.
  induction n as [n IH] using lt_wf_ind. intros [|a [|b t]] En; cbn in *; subst; [done..|].
  rewrite (IH (length t)) by lia. done.
Qed.

(** ** [main] *)

Lemma gpo3_options_idx c :
  let '(_, i0, j0, k0) := gpo3_options c in
  i0 = default (-1)%Z (arg_i c) /\ j0 = default (-1)%Z (arg_j c) /\ k0 = default (-1)%Z (arg_k c).
Proof. unfold gpo3_options. destruct (arg_i c), (arg_j c), (arg_k c); done. Qed.

(** [C29] The option word [main] builds has the bit [I_CONST],
    [J_CONST] or [K_CONST] exactly when [-i], [-j] or [-k] is given, the
    bits [RT], [IT], [BW] and [PH] exactly when [-re], [-im], [-bw] or
    [-ph] is; the projection the printers use is [mode1] under [-re],
    else [mode2] under [-im], else [mode4] under [-ph], else [mode3]. *)
Theorem gpo3_options_bits atan2 c :
  let '(opts, _, _, _) := gpo3_options c in
  has opts I_CONST = bool_decide (is_Some (arg_i c)) /\
  has opts J_CONST = bool_decide (is_Some (arg_j c)) /\
  has opts K_CONST = bool_decide (is_Some (arg_k c)) /\
  has opts RT = arg_re c /\ has opts IT = arg_im c /\
  has opts BW = arg_bw c /\ has opts PH = arg_ph c /\
  fkt_of atan2 opts = (if arg_re c then mode1 else if arg_im c then mode2
                       else if arg_ph c then mode4 atan2 else mode3).
Proof.
  unfold gpo3_options.
  destruct (arg_i c), (arg_j c), (arg_k c), (arg_re c), (arg_im c), (arg_bw c), (arg_ph c);
    repeat apply conj; reflexivity.
Qed.

Section Main.
Variables (atan2 : Qc -> Qc -> Qc) (sign : Qc -> Qc).

(** The printer [main] picks reads only inside the field when the file
    holds the whole grid and the fixed indices avoid the values the
    guards wrongly accept. *)
Lemma gpo3_slice_safe h payload opts i0 j0 k0 :
  (0 < nDimX h)%Z -> (0 < nDimY h)%Z -> (0 < nDimZ h)%Z ->
  (nDimX h * nDimY h * nDimZ h <= int32_max)%Z ->
  (Z.to_nat (nDimX h * nDimY h * nDimZ h) * (if (bComplex h =? 1)%Z then 2 else 1)
     <= length payload)%nat ->
  i0 <> nDimX h -> j0 <> nDimY h -> (k0 < nDimZ h \/ nDimY h < k0)%Z ->
  is_Some (gpo3_slice atan2 sign h payload opts i0 j0 k0).
Proof.
  intros HX HY HZ Hint Hp Hi0 Hj0 Hk0.
  assert (Hint2 : (nDimX h * nDimY h <= int32_max)%Z) by nia.
  destruct (dims_to_int32 _ _ _ HX HY HZ Hint) as (HdX & _ & _).
  pose proof (Nat.div2_odd (length payload)).
  assert (Nat.b2n (Nat.odd (length payload)) <= 1) by (destruct (Nat.odd _); cbn; lia).
  assert (Z.to_nat (nDimX h) <= Z.to_nat (nDimX h * nDimY h) <=
          Z.to_nat (nDimX h * nDimY h * nDimZ h))%nat by (split; apply Z2Nat.inj_le; nia).
  unfold gpo3_slice, display_1D_r, display_1D_c, display_2D_r, display_2D_c, display_3D_r, display_3D_c.
  revert Hp. destruct (bComplex h =? 1)%Z eqn:Ec; intros Hp; [apply Z.eqb_eq in Ec; rewrite Ec |].
  - destruct (nDims h) as [|[[]|[]|]|]; try (by exists []).
    + apply display_3D_safe; [done | done | done | | done | done | done | done].
      rewrite length_take, length_pairs. lia.
    + apply display_2D_safe; [done | done | | done | done | done].
      rewrite length_take, length_pairs. lia.
    + apply display_1D_c_safe. rewrite HdX, length_take, length_pairs. lia.
  - assert (Hr : forall n, (n <= Z.to_nat (nDimX h * nDimY h * nDimZ h))%nat ->
              length (take n payload) = n) by (intros n Hn; rewrite length_take; lia).
    destruct (nDims h) as [|[[]|[]|]|]; destruct (bComplex h) as [|[[]|[]|]|];
      try (cbn in Ec; discriminate Ec); try (by exists []).
    + apply display_3D_safe; [done | done | done | | done | done | done | done]. by apply Hr.
    + apply display_2D_safe; [done | done | | done | done | done]. apply Hr. lia.
    + apply display_1D_r_safe. rewrite HdX, Hr; lia.
Qed.

(** [main] on a file that opens: the usage lines, the header dump with
    the fixed indices, then the slice. *)
Lemma gpo3_main_opened c fs h payload :
  fs (default String.EmptyString (arg_file c)) = Some (h, payload) ->
  gpo3_main atan2 sign c fs =
  rows ← gpo3_slice atan2 sign h payload (gpo3_options c).1.1.1
           (default (-1)%Z (arg_i c)) (default (-1)%Z (arg_j c)) (default (-1)%Z (arg_k c));
  Some (Output (usage_rows c ++ header_dump (default String.EmptyString (arg_file c)) h
                  (default (-1)%Z (arg_i c)) (default (-1)%Z (arg_j c)) (default (-1)%Z (arg_k c)) ++ rows)).
Proof.
  intros Hfs. unfold gpo3_main. pose proof (gpo3_options_idx c) as Hidx.
  destruct (gpo3_options c) as [[[o i0] j0] k0]. destruct Hidx as (-> & -> & ->).
  by rewrite Hfs.
Qed.

(** [C13] gpo3 exits with [EXIT_FAILURE] exactly when the named file
    (the empty name when none is given) cannot be opened, and then it has
    printed nothing but the usage lines. *)
Theorem gpo3_main_exit_failure c fs :
  (gpo3_main atan2 sign c fs = Some (ExitFailure (usage_rows c)) <->
   fs (default String.EmptyString (arg_file c)) = None) /\
  (forall out, gpo3_main atan2 sign c fs = Some (ExitFailure out) -> out = usage_rows c).
Proof.
  unfold gpo3_main. destruct (gpo3_options c) as [[[o i0] j0] k0].
  destruct (fs _) as [[h p]|]; [|split; [done | by intros out [= <-]]].
  destruct (gpo3_slice _ _ _ _ _ _ _ _); cbn;
    (split; [split; [discriminate | done] | intros out E; discriminate E]).
Qed.

(** [C5] Whatever the dimension and type of the stored field, when the
    file holds the whole grid and the grid has at most [INT_MAX]
    points, so that the [int] offsets do not overflow, [gpo3] prints its
    output without reading outside the field, unless a fixed index takes one of the values the
    guards wrongly accept ([-i dimX], [-j dimY], or [dimZ <= k0 <= dimY]). *)
Theorem gpo3_main_safe c fs h payload :
  fs (default String.EmptyString (arg_file c)) = Some (h, payload) ->
  (0 < nDimX h)%Z -> (0 < nDimY h)%Z -> (0 < nDimZ h)%Z ->
  (nDimX h * nDimY h * nDimZ h <= int32_max)%Z ->
  (Z.to_nat (nDimX h * nDimY h * nDimZ h) * (if (bComplex h =? 1)%Z then 2 else 1)
     <= length payload)%nat ->
  (forall v, arg_i c = Some v -> v <> nDimX h) ->
  (forall v, arg_j c = Some v -> v <> nDimY h) ->
  (forall v, arg_k c = Some v -> v < nDimZ h \/ nDimY h < v)%Z ->
  exists rows, gpo3_main atan2 sign c fs = Some (Output rows).
Proof.
  intros Hfs HX HY HZ Hint Hp Hi Hj Hk. rewrite (gpo3_main_opened c fs h payload Hfs).
  destruct (gpo3_slice_safe h payload (gpo3_options c).1.1.1
              (default (-1)%Z (arg_i c)) (default (-1)%Z (arg_j c)) (default (-1)%Z (arg_k c)))
    as [rows ->]; [done..| | | |by eexists].
  - destruct (arg_i c) eqn:E; cbn; [by apply Hi | lia].
  - destruct (arg_j c) eqn:E; cbn; [by apply Hj | lia].
  - destruct (arg_k c) eqn:E; cbn; [by apply Hk | lia].
Qed.


(** [C37] A header whose [nDims] is not 1, 2 or 3, or whose [bComplex]
    is neither 0 nor 1, matches none of [main]'s six cases: gpo3 prints
    the usage lines and the header dump, reads no field and ends
    normally. *)
Theorem gpo3_main_unknown_layout c fs h payload :
  fs (default String.EmptyString (arg_file c)) = Some (h, payload) ->
  (nDims h < 1 \/ 3 < nDims h \/ bComplex h < 0 \/ 1 < bComplex h)%Z ->
  gpo3_main atan2 sign c fs =
  Some (Output (usage_rows c ++ header_dump (default String.EmptyString (arg_file c)) h
                  (default (-1)%Z (arg_i c)) (default (-1)%Z (arg_j c)) (default (-1)%Z (arg_k c)))).
Proof.
  intros Hfs Hl. rewrite (gpo3_main_opened c fs h payload Hfs).
  assert (E : gpo3_slice atan2 sign h payload (gpo3_options c).1.1.1 (default (-1)%Z (arg_i c))
                (default (-1)%Z (arg_j c)) (default (-1)%Z (arg_k c)) = Some []).
  { unfold gpo3_slice. repeat case_match; simplify_eq; done || lia. }
  rewrite E. cbn -[usage_rows header_dump]. by rewrite app_nil_r.
Qed.

(** [C26] A 1-D real file: gpo3 reads [nDimX] doubles after the header
    and, after the usage lines and the header dump, prints the rows
    [(xMin + i dx, v_i)] of those doubles. *)
Theorem gpo3_main_1D_real c fs h payload :
  fs (default String.EmptyString (arg_file c)) = Some (h, payload) ->
  nDims h = 1%Z -> bComplex h = 0%Z -> (0 <= nDimX h <= int32_max)%Z ->
  (Z.to_nat (nDimX h) <= length payload)%nat ->
  gpo3_main atan2 sign c fs =
  Some (Output (usage_rows c ++ header_dump (default String.EmptyString (arg_file c)) h
                  (default (-1)%Z (arg_i c)) (default (-1)%Z (arg_j c)) (default (-1)%Z (arg_k c)) ++
                imap (fun i v => Row [(xMin h + Z2R (Z.of_nat i) * hdx h)%Qc; v])
                     (take (Z.to_nat (nDimX h)) payload))).
Proof.
  intros Hfs Hd Hc HX Hl. rewrite (gpo3_main_opened c fs h payload Hfs).
  unfold gpo3_slice. cbv zeta. rewrite Hd, Hc.
  rewrite display_1D_r_rows; rewrite (to_int32_small (nDimX h)) by (unfold int32_min; lia).
  - rewrite take_take, Nat.min_id. reflexivity.
  - rewrite length_take. lia.
Qed.
End Main.

(** [gpo3 -i 1 -j 2] on a file holding a 2x3x4 real field. *)
Definition cmd_ij : cmdline := mkCmd false (Some 1%Z) (Some 2%Z) None false false false false None.

Lemma gpo3_main_safe_witness :
  exists rows, gpo3_main (fun _ _ => 0%Qc) (fun v => v) cmd_ij
                 (fun _ => Some (hdr 2 3 4, ramp 24)) = Some (Output rows).
Proof.
  apply (gpo3_main_safe _ _ cmd_ij _ (hdr 2 3 4) (ramp 24));
    [reflexivity | by_eval .. | | | ].
  - intros v Hv. injection Hv as <-. by_eval.
  - intros v Hv. injection Hv as <-. by_eval.
  - intros v Hv. discriminate.
Defined.


(** A header with [nDims = 4]. *)
Definition hdr4 : header := mkHeader 4 2 3 4 0 0 0 0 0 0 0 0 0 0 0 1 1 1 1 1 1.

Lemma gpo3_main_unknown_layout_witness :
  gpo3_main (fun _ _ => 0%Qc) (fun v => v) cmd_ij (fun _ => Some (hdr4, ramp 24)) =
  Some (Output (usage_rows cmd_ij ++ header_dump (default String.EmptyString (arg_file cmd_ij)) hdr4
                  (default (-1)%Z (arg_i cmd_ij)) (default (-1)%Z (arg_j cmd_ij))
                  (default (-1)%Z (arg_k cmd_ij)))).
Proof. apply (gpo3_main_unknown_layout _ _ cmd_ij _ hdr4 (ramp 24)); [reflexivity | by_eval]. Defined.

(** A 1-D real header with three samples. *)
Definition hdr1 : header := mkHeader 1 3 1 1 0 0 0 0 0 0 0 0 0 0 0 1 1 1 1 1 1.

Lemma gpo3_main_1D_real_witness :
  gpo3_main (fun _ _ => 0%Qc) (fun v => v) cmd_ij (fun _ => Some (hdr1, ramp 4)) =
  Some (Output (usage_rows cmd_ij ++ header_dump (default String.EmptyString (arg_file cmd_ij)) hdr1
                  (default (-1)%Z (arg_i cmd_ij)) (default (-1)%Z (arg_j cmd_ij))
                  (default (-1)%Z (arg_k cmd_ij)) ++
                imap (fun i v => Row [(xMin hdr1 + Z2R (Z.of_nat i) * hdx hdr1)%Qc; v])
                     (take (Z.to_nat (nDimX hdr1)) (ramp 4)))).
Proof. apply (gpo3_main_1D_real _ _ cmd_ij _ hdr1 (ramp 4)); [reflexivity | by_eval ..]. Defined.
